(** * Cycle-phase estimation: a shallow embedding of
      [backend/scripts/garmin_data_collector.py]

    The two functions with algorithmic content are
    [predict_menstrual_phases] (lines 57-278) and [calculate_current_phase]
    (lines 602-726).  Both parse the raw cycle summaries, sort and filter
    the cycle starts, estimate a cycle length, cut one cycle into four
    phases and classify a day.  The text of these stages is duplicated in
    the source; it is embedded once here and used by both functions.

    Conventions of the embedding.
    - A [datetime] obtained by [strptime(s, '%Y-%m-%d')] is a midnight; it
      is represented by its proleptic Gregorian ordinal, an integer, so
      that [(a - b).days] is [a - b] and [a - timedelta(days=n)] is
      [a - n].  [ymd y m d] is that ordinal, computed the way CPython's
      [date.toordinal] does.  [strftime('%Y-%m-%d')] is injective on
      dates, so output date strings are kept as dates.
    - Python integers are [Z]; [//] and [%] are [Z.div] and [Z.modulo]
      (floor division, sign of the divisor) and raise [ZeroDivisionError]
      on a zero divisor; [int(x)] of a float truncates towards zero.
    - [dict]s keyed by a date are [gmap Z _].
    - Date strings arrive parsed: a [strptime] that fails with
      [ValueError] (lines 83, 108, 614, 632) is outside the embedding, as
      is a [menstrual_data] that is not a dictionary.  A [datetime] lies
      between 0001-01-01 and 9999-12-31; the one place where the code
      computes a new one, line 180, raises [OverflowError] outside this
      range.
    - The Supabase calls are outside the embedding: the ordered [date]
      column of [hr_data] is the argument [hr_dates], and the predictions
      handed to the upsert loop are the result. *)

From Stdlib Require Import ZArith Lia.
From stdpp Require Import base option list sorting gmap strings.

Local Open Scope Z_scope.

(** ** Dates *)

Module Date.

Definition is_leap (year : Z) : bool :=
  (year mod 4 =? 0) && (negb (year mod 100 =? 0) || (year mod 400 =? 0)).

Definition days_before_year (year : Z) : Z :=
  let y := year - 1 in
  y * 365 + y / 4 - y / 100 + y / 400.

Definition days_in_month (year month : Z) : Z :=
  if month =? 2 then (if is_leap year then 29 else 28)
  else if (month =? 4) || (month =? 6) || (month =? 9) || (month =? 11)
       then 30 else 31.

Definition days_before_month (year month : Z) : Z :=
  foldr Z.add 0
    ((λ m, days_in_month year (Z.of_nat m)) <$> seq 1 (Z.to_nat (month - 1))).

(** [datetime(y, m, d).toordinal()] *)
Definition ymd (year month day : Z) : Z :=
  days_before_year year + days_before_month year month + day.

End Date.

Export Date.

(** ** Python values and exceptions *)

Inductive exn : Set :=
| ZeroDivisionError
| IndexError
| OverflowError.

Inductive result (A : Type) : Type :=
| Ok (a : A)
| Raise (e : exn).

Arguments Ok {A} a.
Arguments Raise {A} e.

#[global] Instance result_bind : MBind result := λ A B k r,
  match r with
  | Ok a => k a
  | Raise e => Raise e
  end.

Fixpoint mapM {A B} (f : A → result B) (l : list A) : result (list B) :=
  match l with
  | [] => Ok []
  | a :: l' => b ← f a; bs ← mapM f l'; Ok (b :: bs)
  end.

(** [a // b] *)
Definition floordiv (a b : Z) : result Z :=
  if b =? 0 then Raise ZeroDivisionError else Ok (a / b).

(** [a % b] *)
Definition pymod (a b : Z) : result Z :=
  if b =? 0 then Raise ZeroDivisionError else Ok (a mod b).

(** [l[i]] for a Python integer [i]: a negative index counts from the end,
    an index out of range raises. *)
Definition getitem {A} (l : list A) (i : Z) : result A :=
  let n := Z.of_nat (length l) in
  let j := if i <? 0 then i + n else i in
  if j <? 0 then Raise IndexError
  else match l !! Z.to_nat j with
       | Some x => Ok x
       | None => Raise IndexError
       end.

(** [datetime.min] and [datetime.max] as ordinals (0001-01-01 and
    9999-12-31), and the largest magnitude [timedelta(days=n)] accepts. *)
Definition min_ordinal : Z := 1.
Definition max_ordinal : Z := 3652059.
Definition max_timedelta_days : Z := 999999999.

Definition is_datetime (d : Z) : Prop := min_ordinal ≤ d ≤ max_ordinal.

(** [d - timedelta(days=n)]: building the [timedelta] raises when [n] is
    too large, the subtraction when the result is not a [datetime]. *)
Definition minus_days (d n : Z) : result Z :=
  if max_timedelta_days <? Z.abs n then Raise OverflowError
  else if (d - n <? min_ordinal) || (max_ordinal <? d - n) then Raise OverflowError
  else Ok (d - n).

(** Truth value of an optional integer field: [None] and [0] are false. *)
Definition truthy (v : option Z) : bool :=
  match v with
  | Some n => negb (n =? 0)
  | None => false
  end.

(** ** Raw input *)

(** One element of [menstrual_data['cycleSummaries']], read with [.get]:
    a missing key is [None].  [startDate] is kept parsed; [None] also
    stands for the empty string, which [not start_date_str] rejects
    alike. *)
Record CycleSummary : Set := {
  startDate : option Z;
  periodLength : option Z;
  fertileWindowStart : option Z;
  lengthOfFertileWindow : option Z
}.

(** ** Parsing (lines 95-112, 621-636) *)

Record Parsed : Type := {
  cycle_starts : list Z;
  period_lengths : gmap Z Z;
  fertile_windows : gmap Z (Z * Z)
}.

Definition parse_step (acc : Parsed) (cycle : CycleSummary) : Parsed :=
  match startDate cycle, periodLength cycle with
  | Some start_date, Some period_length =>
      {| cycle_starts := cycle_starts acc ++ [start_date];
         period_lengths := <[start_date := period_length]> (period_lengths acc);
         fertile_windows :=
           match fertileWindowStart cycle, lengthOfFertileWindow cycle with
           | Some fertile_window_start, Some fertile_window_length =>
               if truthy (Some fertile_window_start)
                  && truthy (Some fertile_window_length)
               then <[start_date := (fertile_window_start, fertile_window_length)]>
                      (fertile_windows acc)
               else fertile_windows acc
           | _, _ => fertile_windows acc
           end |}
  | _, _ => acc
  end.

Definition parse_cycle_summaries (cycle_summaries : list CycleSummary) : Parsed :=
  foldl parse_step
    {| cycle_starts := []; period_lengths := ∅; fertile_windows := ∅ |}
    cycle_summaries.

(** ** Normalisation (lines 118-133, 641-652) *)

Definition min_cycle_length : Z := 15.

(** One iteration of the filtering loop on [cycle_starts[i]]. *)
Definition filter_step (filtered_cycle_starts : list Z) (start : Z) : list Z :=
  match last filtered_cycle_starts with
  | Some last_start =>
      let days_since_last_start := start - last_start in
      if min_cycle_length <=? days_since_last_start
      then filtered_cycle_starts ++ [start]
      else <[pred (length filtered_cycle_starts) := start]> filtered_cycle_starts
  | None => filtered_cycle_starts
  end.

(** [cycle_starts.sort()] followed by the filtering loop; only called on a
    non-empty list. *)
Definition filter_cycle_starts (cycle_starts : list Z) : list Z :=
  match merge_sort Z.le cycle_starts with
  | [] => []
  | first :: rest => foldl filter_step [first] rest
  end.

(** ** Cycle-length estimate (lines 136-147, 667-673) *)

Definition cycle_lengths (cycle_starts : list Z) : list Z :=
  foldl (λ acc i,
           match cycle_starts !! S i, cycle_starts !! i with
           | Some next, Some this =>
               let cycle_length := next - this in
               if (15 <=? cycle_length) && (cycle_length <=? 45)
               then acc ++ [cycle_length] else acc
           | _, _ => acc
           end)
        [] (seq 0 (length cycle_starts - 1)).

Definition sum_list (l : list Z) : Z := foldr Z.add 0 l.

(** [int(np.mean(l))] on a non-empty list of integers: numpy adds the
    entries in double precision and divides by the count; entries are at
    most 45, the sum is exact, and truncating the rounded quotient gives
    the truncated exact quotient. *)
Definition int_mean (l : list Z) : Z := sum_list l ÷ Z.of_nat (length l).

Definition estimate_cycle_length (cycle_starts : list Z) (default_cycle_length : Z) : Z :=
  match cycle_lengths cycle_starts with
  | [] => default_cycle_length
  | l => int_mean l
  end.

(** ** Phase segmentation (lines 193-224, 675-704) *)

Record PhaseRanges : Set := {
  ovulatory_start : Z;
  ovulatory_duration : Z;
  luteal_duration : Z;
  follicular_duration : Z;
  menstrual_end : Z;
  follicular_end : Z;
  ovulatory_end : Z;
  luteal_end : Z
}.

(** The first value of [ovulatory_start] and [ovulatory_duration]
    (lines 198-207): the fertile window when the cycle start has one,
    the estimate otherwise.  [int(cycle_length * 14 / 28)] divides in
    double precision, where half of an integer is exact, and truncates
    towards zero: it is the truncated quotient [÷].  The cycle length is
    [current_cycle_length] in [predict_menstrual_phases] and
    [estimated_cycle_length] in [calculate_current_phase]. *)
Definition ovulatory_window
    (menstrual_duration cycle_length : Z) (fertile_window : option (Z * Z)) : Z * Z :=
  match fertile_window with
  | Some (fertile_start, fertile_length) => (fertile_start, fertile_length)
  | None =>
      let ovulatory_midpoint := (cycle_length * 14) ÷ 28 in
      let ovulatory_start := Z.max (menstrual_duration + 1) (ovulatory_midpoint - 3) in
      let ovulatory_duration := 7 in
      if cycle_length <? ovulatory_start + ovulatory_duration - 1
      then (Z.max (menstrual_duration + 1) (cycle_length - ovulatory_duration + 1),
            ovulatory_duration)
      else (ovulatory_start, ovulatory_duration)
  end.

Definition phase_ranges
    (menstrual_duration cycle_length : Z) (fertile_window : option (Z * Z)) : PhaseRanges :=
  let '(ovulatory_start, ovulatory_duration) :=
    ovulatory_window menstrual_duration cycle_length fertile_window in
  let luteal_duration := cycle_length - (ovulatory_start + ovulatory_duration - 1) in
  let luteal_duration := Z.max 10 (Z.min 16 luteal_duration) in
  let ovulatory_start :=
    Z.max (menstrual_duration + 1)
          (cycle_length - luteal_duration - ovulatory_duration + 1) in
  let follicular_duration := ovulatory_start - menstrual_duration - 1 in
  let '(follicular_duration, ovulatory_start) :=
    if follicular_duration <? 1
    then (1, menstrual_duration + 1 + 1)
    else (follicular_duration, ovulatory_start) in
  let menstrual_end := menstrual_duration in
  let follicular_end := menstrual_end + follicular_duration in
  let ovulatory_end := follicular_end + ovulatory_duration in
  let luteal_end := cycle_length in
  {| ovulatory_start := ovulatory_start;
     ovulatory_duration := ovulatory_duration;
     luteal_duration := luteal_duration;
     follicular_duration := follicular_duration;
     menstrual_end := menstrual_end;
     follicular_end := follicular_end;
     ovulatory_end := ovulatory_end;
     luteal_end := luteal_end |}.

(** ** Classification (lines 226-235, 706-715) *)

Inductive Phase : Set := Menstrual | Follicular | Ovulatory | Luteal.

(** [cycle_day % cycle_length if cycle_day % cycle_length != 0 else cycle_length] *)
Definition cycle_day_within_phase (cycle_day cycle_length : Z) : result Z :=
  r ← pymod cycle_day cycle_length;
  Ok (if negb (r =? 0) then r else cycle_length).

Definition classify (day : Z) (ranges : PhaseRanges) : Phase :=
  if (1 <=? day) && (day <=? menstrual_end ranges) then Menstrual
  else if (menstrual_end ranges <? day) && (day <=? follicular_end ranges) then Follicular
  else if (follicular_end ranges <? day) && (day <=? ovulatory_end ranges) then Ovulatory
  else Luteal.

(** ** [predict_menstrual_phases] *)

(** The dictionary appended to [predictions] (lines 237-243). *)
Record Prediction : Set := {
  user_id : string;
  date : Z;
  start_date : Z;
  predicted_phase : Phase;
  cycle_day : Z
}.

(** Step 4 (lines 149-155): the index of the first date on or after a
    cycle start; a start after every date contributes no index. *)
Definition first_index_ge (dates : list Z) (start_date : Z) : option nat :=
  fst <$> list_find (λ d, start_date ≤ d) dates.

Definition cycle_start_indices_of (cycle_starts dates : list Z) : list nat :=
  omap (first_index_ge dates) cycle_starts.

(** Lines 166-173: the loop over [zip(cycle_start_indices, cycle_starts)]
    that keeps the last start on or before [date] and breaks at the first
    later one. *)
Fixpoint find_cycle_start
    (zipped : list (nat * Z)) (date : Z) (found : option (Z * nat)) : option (Z * nat) :=
  match zipped with
  | [] => found
  | (idx, start_date) :: rest =>
      if start_date <=? date
      then find_cycle_start rest date (Some (start_date, idx))
      else found
  end.

(** Line 187: [cycle_start_indices.index(cycle_start_idx) + 1] when the
    index occurs in the list, [-1] otherwise. *)
Definition next_cycle_idx_of (cycle_start_indices : list nat) (cycle_start_idx : nat) : Z :=
  match list_find (λ i, i = cycle_start_idx) cycle_start_indices with
  | Some (pos, _) => Z.of_nat pos + 1
  | None => -1
  end.

(** Lines 186-191. *)
Definition current_cycle_length_of
    (cycle_start_indices : list nat) (dates : list Z)
    (cycle_start : Z) (cycle_start_idx : nat) (estimated_cycle_length : Z) : result Z :=
  let next_cycle_idx := next_cycle_idx_of cycle_start_indices cycle_start_idx in
  if next_cycle_idx <? Z.of_nat (length cycle_start_indices)
  then i ← getitem cycle_start_indices next_cycle_idx;
       d ← getitem dates (Z.of_nat i);
       Ok (d - cycle_start)
  else Ok estimated_cycle_length.

(** What steps 1-4 leave for the loop of step 5. *)
Record Context : Type := {
  ctx_parsed : Parsed;
  ctx_cycle_starts : list Z;
  ctx_estimated_cycle_length : Z;
  ctx_cycle_start_indices : list nat
}.

(** Lines 166-181: the governing cycle start and its date index. *)
Definition locate_cycle (ctx : Context) (date : Z) : result (Z * nat) :=
  match find_cycle_start
          (zip (ctx_cycle_start_indices ctx) (ctx_cycle_starts ctx)) date None with
  | Some found => Ok found
  | None =>
      first ← getitem (ctx_cycle_starts ctx) 0;
      let days_before_first := first - date in
      q ← floordiv days_before_first (ctx_estimated_cycle_length ctx);
      let cycles_before := q + 1 in
      cycle_start ←
        minus_days first (cycles_before * ctx_estimated_cycle_length ctx);
      Ok (cycle_start, 0%nat)
  end.

(** The local variables of one iteration of step 5 that later lines or the
    prediction read. *)
Record Locals : Set := {
  l_cycle_start : Z;
  l_cycle_day : Z;
  l_current_cycle_length : Z;
  l_ranges : PhaseRanges;
  l_cycle_day_within_phase : Z;
  l_predicted_phase : Phase
}.

(** One iteration of the loop of step 5 (lines 164-235). *)
Definition map_date (ctx : Context) (dates : list Z) (date : Z) : result Locals :=
  '(cycle_start, cycle_start_idx) ← locate_cycle ctx date;
  let cycle_day := date - cycle_start + 1 in
  current_cycle_length ←
    current_cycle_length_of (ctx_cycle_start_indices ctx) dates
      cycle_start cycle_start_idx (ctx_estimated_cycle_length ctx);
  let menstrual_duration :=
    default 5 (period_lengths (ctx_parsed ctx) !! cycle_start) in
  let ranges :=
    phase_ranges menstrual_duration current_cycle_length
      (fertile_windows (ctx_parsed ctx) !! cycle_start) in
  day ← cycle_day_within_phase cycle_day current_cycle_length;
  Ok {| l_cycle_start := cycle_start;
        l_cycle_day := cycle_day;
        l_current_cycle_length := current_cycle_length;
        l_ranges := ranges;
        l_cycle_day_within_phase := day;
        l_predicted_phase := classify day ranges |}.

Definition prediction_of (user : string) (date : Z) (l : Locals) : Prediction :=
  {| user_id := user;
     date := date;
     start_date := l_cycle_start l;
     predicted_phase := l_predicted_phase l;
     cycle_day := l_cycle_day_within_phase l |}.

Definition predict_date (user : string) (ctx : Context) (dates : list Z) (date : Z)
  : result Prediction :=
  l ← map_date ctx dates date; Ok (prediction_of user date l).

(** The message printed before an early [return]. *)
Inductive Diagnostic : Set :=
| NoHRData              (* line 78 *)
| NoMenstrualData       (* line 87 *)
| NoCycleSummaries      (* line 92 *)
| NoValidCycleStarts    (* line 115 *)
| NoCycleStartInRange.  (* line 157 *)

(** How a call ends.  The function has no [return] with a value: the
    caller receives [None] whenever no exception propagates, and the
    predictions reach the [menstrual_phases] table only. *)
Inductive Outcome : Type :=
| Returned (printed : option Diagnostic) (predictions : list Prediction)
| Raised (e : exn).

(** Steps 1-4. *)
Definition prepare (hr_dates : list Z) (menstrual_data : option (list CycleSummary))
    (default_cycle_length : Z) : Diagnostic + Context :=
  match hr_dates with
  | [] => inl NoHRData
  | _ =>
    match menstrual_data with
    | None => inl NoMenstrualData
    | Some [] => inl NoCycleSummaries
    | Some cycle_summaries =>
        let parsed := parse_cycle_summaries cycle_summaries in
        match cycle_starts parsed with
        | [] => inl NoValidCycleStarts
        | starts =>
            let starts := filter_cycle_starts starts in
            let estimated := estimate_cycle_length starts default_cycle_length in
            match cycle_start_indices_of starts hr_dates with
            | [] => inl NoCycleStartInRange
            | indices =>
                inr {| ctx_parsed := parsed;
                       ctx_cycle_starts := starts;
                       ctx_estimated_cycle_length := estimated;
                       ctx_cycle_start_indices := indices |}
            end
        end
    end
  end.

(** [hr_dates] is the [date] column of the user's [hr_data] rows in the
    order the query returns them; [menstrual_data] is [None] for a false
    argument ([None] or an empty dictionary) and otherwise its
    ['cycleSummaries'] list, empty when the key is missing. *)
Definition predict_menstrual_phases
    (user : string) (hr_dates : list Z) (menstrual_data : option (list CycleSummary))
    (default_cycle_length : Z) : Outcome :=
  match prepare hr_dates menstrual_data default_cycle_length with
  | inl printed => Returned (Some printed) []
  | inr ctx =>
      match mapM (predict_date user ctx hr_dates) hr_dates with
      | Ok predictions => Returned None predictions
      | Raise e => Raised e
      end
  end.

(** ** [calculate_current_phase] *)

Inductive PhaseError : Set :=
| NoCycleSummariesFound       (* line 619 *)
| NoValidCycleStartsFound     (* line 639 *)
| NoCycleStartBeforeDate      (* line 662 *)
| ErrorCalculating (e : exn). (* line 726 *)

Record CurrentPhase : Set := {
  cp_date : Z;
  cp_start_date : Z;
  cp_predicted_phase : Phase;
  cp_cycle_day : Z;
  cp_estimated_cycle_length : Z
}.

Definition calculate_current_phase
    (cycle_summaries : list CycleSummary) (current_date : Z) : PhaseError + CurrentPhase :=
  match cycle_summaries with
  | [] => inl NoCycleSummariesFound
  | _ =>
    let parsed := parse_cycle_summaries cycle_summaries in
    match cycle_starts parsed with
    | [] => inl NoValidCycleStartsFound
    | starts =>
      let starts := filter_cycle_starts starts in
      match list_find (λ start_date, start_date ≤ current_date) (reverse starts) with
      | None => inl NoCycleStartBeforeDate
      | Some (_, last_cycle_start) =>
          let cycle_day := current_date - last_cycle_start + 1 in
          let estimated_cycle_length := estimate_cycle_length starts 28 in
          let menstrual_duration :=
            default 5 (period_lengths parsed !! last_cycle_start) in
          let ranges :=
            phase_ranges menstrual_duration estimated_cycle_length
              (fertile_windows parsed !! last_cycle_start) in
          match cycle_day_within_phase cycle_day estimated_cycle_length with
          | Raise e => inl (ErrorCalculating e)
          | Ok day =>
              inr {| cp_date := current_date;
                     cp_start_date := last_cycle_start;
                     cp_predicted_phase := classify day ranges;
                     cp_cycle_day := day;
                     cp_estimated_cycle_length := estimated_cycle_length |}
          end
      end
    end
  end.

(** ** Properties stated by the specification *)

(** PhaseBoundaries partition [[1, cycle_length]]. *)
Definition partition_invariant (r : PhaseRanges) (cycle_length : Z) : Prop :=
  0 < menstrual_end r ∧ menstrual_end r < follicular_end r ∧
  follicular_end r < ovulatory_end r ∧ ovulatory_end r ≤ luteal_end r ∧
  luteal_end r = cycle_length.

(** Consecutive entries at least [min_cycle_length] days apart. *)
Definition spaced (starts : list Z) : Prop :=
  Sorted (λ a b, min_cycle_length ≤ b - a) starts.

Definition valid_summary (c : CycleSummary) : Prop :=
  is_Some (startDate c) ∧ is_Some (periodLength c).

(** The NormalizedHistory of a raw input. *)
Definition normalized_history (cycle_summaries : list CycleSummary) : list Z :=
  filter_cycle_starts (cycle_starts (parse_cycle_summaries cycle_summaries)).

(** A summary with a start date and a period length only. *)
Definition plain_summary (start period_length : Z) : CycleSummary :=
  {| startDate := Some start; periodLength := Some period_length;
     fertileWindowStart := None; lengthOfFertileWindow := None |}.

(** The estimator in the words of the specification: the day-deltas of
    consecutive starts, those in [[15, 45]] kept, their mean truncated to
    an integer, and the default when none is kept. *)
Definition consecutive_deltas (starts : list Z) : list Z :=
  zip_with (λ this next, next - this) starts (drop 1 starts).

Definition spec_estimated_cycle_length (starts : list Z) (default_cycle_length : Z) : Z :=
  match filter (λ d, 15 ≤ d ≤ 45) (consecutive_deltas starts) with
  | [] => default_cycle_length
  | kept => sum_list kept ÷ Z.of_nat (length kept)
  end.

(** The first target date on or after a cycle start. *)
Definition first_date_ge (dates : list Z) (start_date : Z) : option Z :=
  snd <$> list_find (λ d, start_date ≤ d) dates.

(** [cycle_day] folded into [[1, cycle_length]], in the words of the
    specification. *)
Definition fold_day (cycle_day cycle_length : Z) : Z :=
  if cycle_day mod cycle_length =? 0 then cycle_length
  else cycle_day mod cycle_length.

(** What the caller of [predict_menstrual_phases] receives: the value
    [None], or an exception. *)
Definition caller_view (o : Outcome) : option exn :=
  match o with
  | Returned _ _ => None
  | Raised e => Some e
  end.

(** The hint of a summary does not pass the test of lines 111 and 635. *)
Definition no_fertile_hint (c : CycleSummary) : Prop :=
  truthy (fertileWindowStart c) && truthy (lengthOfFertileWindow c) = false.

(** The same summary without its fertile-window fields. *)
Definition strip_hint (c : CycleSummary) : CycleSummary :=
  {| startDate := startDate c; periodLength := periodLength c;
     fertileWindowStart := None; lengthOfFertileWindow := None |}.

(** The estimate of lines 202-207 and 683-687, with the midpoint as the
    specification writes it. *)
Definition spec_ovulatory_estimate (menstrual_duration cycle_length : Z) : Z * Z :=
  let midpoint := cycle_length * 14 / 28 in
  let start := Z.max (menstrual_duration + 1) (midpoint - 3) in
  if cycle_length <? start + 7 - 1
  then (Z.max (menstrual_duration + 1) (cycle_length - 7 + 1), 7)
  else (start, 7).

(** The order in which the docstring of [predict_menstrual_phases] lists
    the phases: Menstrual, Follicular, Ovulatory, Luteal. *)
Definition phase_rank (p : Phase) : Z :=
  match p with
  | Menstrual => 0
  | Follicular => 1
  | Ovulatory => 2
  | Luteal => 3
  end.

(** The period lengths of the valid summaries that start on [start], in
    input order. *)
Definition recorded_period_lengths
    (cycle_summaries : list CycleSummary) (start : Z) : list Z :=
  omap (λ c, match startDate c, periodLength c with
             | Some s, Some period_length =>
                 if decide (s = start) then Some period_length else None
             | _, _ => None
             end) cycle_summaries.

(** * Normalisation *)

Section normalisation.

Implicit Types (kept rest starts : list Z) (l c : Z).

Lemma filter_step_snoc kept l c :
  filter_step (kept ++ [l]) c =
    if min_cycle_length <=? c - l then kept ++ [l; c] else kept ++ [c].
Proof.
  unfold filter_step. rewrite last_snoc, length_app. simpl.
  replace (pred (length kept + 1)) with (length kept + 0)%nat by lia.
  rewrite insert_app_r. simpl.
  destruct (min_cycle_length <=? c - l); [by rewrite <- app_assoc | done].
Qed.

Lemma spaced_replace_last kept l c :
  spaced (kept ++ [l]) → l ≤ c → spaced (kept ++ [c]).
Proof.
  unfold spaced. induction kept as [|a kept IH]; simpl; intros Hs Hle.
  { repeat constructor. }
  inversion Hs as [|? ? Hs' Hhd]; subst. constructor; [by apply IH|].
  destruct kept as [|b kept]; simpl in *.
  - inversion Hhd; subst. constructor. lia.
  - inversion Hhd; subst. by constructor.
Qed.

Lemma spaced_snoc kept l c :
  spaced (kept ++ [l]) → min_cycle_length ≤ c - l → spaced ((kept ++ [l]) ++ [c]).
Proof.
  intros Hs Hge. apply Sorted_snoc; [done|]. by constructor.
Qed.

Lemma foldl_filter_step_spaced rest : ∀ kept l,
  spaced (kept ++ [l]) → Sorted Z.le (l :: rest) →
  spaced (foldl filter_step (kept ++ [l]) rest).
Proof.
  induction rest as [|c rest IH]; intros kept l Hs Hsorted; simpl; [done|].
  inversion Hsorted as [|? ? Hrest Hhd]; subst. inversion Hhd; subst.
  rewrite filter_step_snoc.
  destruct (Z.leb_spec min_cycle_length (c - l)).
  - replace (kept ++ [l; c]) with ((kept ++ [l]) ++ [c]) by by rewrite <- app_assoc.
    apply IH; [by apply spaced_snoc | done].
  - apply IH; [by eapply spaced_replace_last | done].
Qed.

Lemma foldl_filter_step_nonempty rest : ∀ kept l,
  foldl filter_step (kept ++ [l]) rest ≠ [].
Proof.
  induction rest as [|c rest IH]; intros kept l; simpl.
  { by destruct kept. }
  rewrite filter_step_snoc. destruct (min_cycle_length <=? c - l).
  - replace (kept ++ [l; c]) with ((kept ++ [l]) ++ [c]) by by rewrite <- app_assoc.
    apply IH.
  - apply IH.
Qed.

Lemma filter_cycle_starts_spaced starts : spaced (filter_cycle_starts starts).
Proof.
  unfold filter_cycle_starts.
  pose proof (Sorted_merge_sort Z.le starts) as Hsorted.
  destruct (merge_sort Z.le starts) as [|first rest]; [constructor|].
  apply (foldl_filter_step_spaced rest [] first); [repeat constructor | done].
Qed.

Lemma filter_cycle_starts_nonempty starts :
  starts ≠ [] → filter_cycle_starts starts ≠ [].
Proof.
  intros Hne. unfold filter_cycle_starts.
  pose proof (merge_sort_Permutation Z.le starts) as Hperm.
  destruct (merge_sort Z.le starts) as [|first rest].
  - by apply Permutation_nil in Hperm.
  - apply (foldl_filter_step_nonempty rest [] first).
Qed.

Lemma spaced_increasing starts : spaced starts → StronglySorted Z.lt starts.
Proof.
  intros Hs. apply Sorted_StronglySorted; [apply _|].
  induction Hs as [|a l _ IH Hhd]; constructor; [done|].
  destruct Hhd; constructor. unfold min_cycle_length in *. lia.
Qed.

Lemma spaced_sorted starts : spaced starts → StronglySorted Z.le starts.
Proof.
  intros Hs. apply Sorted_StronglySorted; [apply _|].
  induction Hs as [|a l _ IH Hhd]; constructor; [done|].
  destruct Hhd; constructor. unfold min_cycle_length in *. lia.
Qed.

End normalisation.

(** * Parsing *)

Lemma parse_step_cycle_starts acc c :
  cycle_starts (parse_step acc c) =
    cycle_starts acc ++
      match startDate c, periodLength c with
      | Some s, Some _ => [s]
      | _, _ => []
      end.
Proof.
  unfold parse_step. destruct (startDate c), (periodLength c); simpl;
    by rewrite ?app_nil_r.
Qed.

Lemma foldl_parse_step_cycle_starts cs : ∀ acc,
  cycle_starts (foldl parse_step acc cs) =
    cycle_starts acc ++
      omap (λ c, match startDate c, periodLength c with
                 | Some s, Some _ => Some s
                 | _, _ => None
                 end) cs.
Proof.
  induction cs as [|c cs IH]; intros acc; simpl; [by rewrite app_nil_r|].
  rewrite IH, parse_step_cycle_starts, <- app_assoc. f_equal.
  by destruct (startDate c), (periodLength c).
Qed.

Lemma parse_cycle_starts_nonempty cs :
  Exists valid_summary cs → cycle_starts (parse_cycle_summaries cs) ≠ [].
Proof.
  unfold parse_cycle_summaries. rewrite foldl_parse_step_cycle_starts. simpl.
  induction 1 as [c cs [[s Hs] [p Hp]]|c cs _ IH]; simpl.
  - by rewrite Hs, Hp.
  - destruct (startDate c), (periodLength c); simpl; done.
Qed.

Lemma parse_cycle_starts_empty cs :
  Forall (λ c, ¬ valid_summary c) cs → cycle_starts (parse_cycle_summaries cs) = [].
Proof.
  unfold parse_cycle_summaries. rewrite foldl_parse_step_cycle_starts. simpl.
  induction 1 as [|c cs Hc _ IH]; simpl; [done|].
  destruct (startDate c) eqn:Hs, (periodLength c) eqn:Hp; simpl; try done.
  exfalso. apply Hc. unfold valid_summary. rewrite Hs, Hp. eauto.
Qed.

(** C5. The filtering loop compares each sorted start with the last kept
    one and, when it is fewer than 15 days later, overwrites the last kept
    start with it instead of appending; it runs over the starts sorted
    ascending; the starts 2024-01-01, 2024-01-10, 2024-02-05 (in any of
    the orders tried) normalise to 2024-01-10, 2024-02-05. *)
Theorem normalisation_later_record_wins :
  (∀ kept last_kept start,
      filter_step (kept ++ [last_kept]) start =
        if start - last_kept <? 15 then kept ++ [start]
        else kept ++ [last_kept; start]) ∧
  (∀ starts, ∃ sorted,
      Sorted Z.le sorted ∧ sorted ≡ₚ starts ∧
      filter_cycle_starts starts =
        match sorted with
        | [] => []
        | first :: rest => foldl filter_step [first] rest
        end) ∧
  filter_cycle_starts [ymd 2024 1 1; ymd 2024 1 10; ymd 2024 2 5]
    = [ymd 2024 1 10; ymd 2024 2 5] ∧
  filter_cycle_starts [ymd 2024 2 5; ymd 2024 1 1; ymd 2024 1 10]
    = [ymd 2024 1 10; ymd 2024 2 5] ∧
  normalized_history
    [plain_summary (ymd 2024 1 1) 5; plain_summary (ymd 2024 1 10) 5;
     plain_summary (ymd 2024 2 5) 5]
    = [ymd 2024 1 10; ymd 2024 2 5].
Proof.
  split; [|split; [|by vm_compute]].
  - intros kept l c. rewrite filter_step_snoc. unfold min_cycle_length.
    destruct (Z.leb_spec 15 (c - l)), (Z.ltb_spec (c - l) 15); done || lia.
  - intros starts. exists (merge_sort Z.le starts).
    split; [apply (Sorted_merge_sort Z.le)|].
    split; [apply merge_sort_Permutation | done].
Qed.

(** C6. Whenever the raw input has a valid record, the normalised history
    is non-empty, strictly increasing, and consecutive kept starts are at
    least 15 days apart. *)
Theorem normalized_history_spaced cycle_summaries :
  Exists valid_summary cycle_summaries →
  normalized_history cycle_summaries ≠ [] ∧
  StronglySorted Z.lt (normalized_history cycle_summaries) ∧
  Sorted (λ a b, 15 ≤ b - a) (normalized_history cycle_summaries).
Proof.
  intros Hvalid. unfold normalized_history. split; [|split].
  - by apply filter_cycle_starts_nonempty, parse_cycle_starts_nonempty.
  - apply spaced_increasing, filter_cycle_starts_spaced.
  - apply filter_cycle_starts_spaced.
Qed.

Lemma normalized_history_spaced_witness :
  let cycle_summaries :=
    [plain_summary (ymd 2024 2 5) 4; plain_summary (ymd 2024 1 1) 5;
     plain_summary (ymd 2024 1 10) 6] in
  Exists valid_summary cycle_summaries ∧
  normalized_history cycle_summaries ≠ [] ∧
  StronglySorted Z.lt (normalized_history cycle_summaries) ∧
  Sorted (λ a b, 15 ≤ b - a) (normalized_history cycle_summaries).
Proof.
  intros cycle_summaries.
  assert (Exists valid_summary cycle_summaries) as Hvalid.
  { apply Exists_cons_hd. split; simpl; eauto. }
  split; [exact Hvalid|]. exact (normalized_history_spaced cycle_summaries Hvalid).
Defined.

(** * Segmentation *)

Lemma phase_ranges_ends md cl fw :
  let r := phase_ranges md cl fw in
  ovulatory_duration r = match fw with Some (_, n) => n | None => 7 end ∧
  menstrual_end r = md ∧
  luteal_end r = cl ∧
  1 ≤ follicular_duration r ∧
  follicular_end r = md + follicular_duration r ∧
  ovulatory_end r = follicular_end r + ovulatory_duration r ∧
  ovulatory_start r = follicular_end r + 1 ∧
  (ovulatory_end r ≤ cl ↔ md + ovulatory_duration r + 1 ≤ cl).
Proof.
  unfold phase_ranges, ovulatory_window.
  destruct fw as [[fs fl]|].
  - destruct (Z.ltb_spec
        (Z.max (md + 1) (cl - Z.max 10 (Z.min 16 (cl - (fs + fl - 1))) - fl + 1)
         - md - 1) 1); simpl; lia.
  - generalize ((cl * 14) ÷ 28). intros mid.
    destruct (Z.ltb_spec cl (Z.max (md + 1) (mid - 3) + 7 - 1));
      match goal with
      | |- context [if ?a <? 1 then _ else _] => destruct (Z.ltb_spec a 1)
      end; simpl; lia.
Qed.

(** C1 (as amended).  Every result of the segmenter has
    [menstrual_end = menstrual_duration < follicular_end] and
    [luteal_end = cycle_length]; its ovulatory duration is the hinted
    length, or 7 without a hint; and the whole chain
    [0 < menstrual_end < follicular_end < ovulatory_end ≤ luteal_end]
    holds exactly when the menstrual duration and the ovulatory duration
    are positive and
    [menstrual_duration + ovulatory_duration + 1 ≤ cycle_length]. *)
Theorem phase_ranges_partition menstrual_duration cycle_length fertile_window :
  let r := phase_ranges menstrual_duration cycle_length fertile_window in
  ovulatory_duration r
    = match fertile_window with Some (_, n) => n | None => 7 end ∧
  menstrual_end r = menstrual_duration ∧
  menstrual_end r < follicular_end r ∧
  luteal_end r = cycle_length ∧
  (partition_invariant r cycle_length ↔
     0 < menstrual_duration ∧ 0 < ovulatory_duration r ∧
     menstrual_duration + ovulatory_duration r + 1 ≤ cycle_length).
Proof.
  intros r.
  destruct (phase_ranges_ends menstrual_duration cycle_length fertile_window)
    as (Hod & Hme & Hle & Hfd & Hfe & Hoe & _ & Hiff).
  fold r in Hod, Hme, Hle, Hfd, Hfe, Hoe, Hiff.
  unfold partition_invariant. repeat split; try lia.
Qed.

(** C1, counterexample: two records 15 days apart with an 8-day period
    reach the segmenter with [menstrual_duration = 8] and
    [cycle_length = 15]; the ovulatory range then ends on day 16, after
    [luteal_end = 15]. *)
Lemma partition_invariant_violated :
  let cycle_summaries :=
    [plain_summary (ymd 2025 1 1) 8; plain_summary (ymd 2025 1 16) 8] in
  let hr_dates := [ymd 2025 1 1; ymd 2025 1 16] in
  ∃ ctx l,
    prepare hr_dates (Some cycle_summaries) 28 = inr ctx ∧
    map_date ctx hr_dates (ymd 2025 1 1) = Ok l ∧
    l_current_cycle_length l = 15 ∧
    l_ranges l = phase_ranges 8 15 None ∧
    ovulatory_end (l_ranges l) = 16 ∧
    ¬ partition_invariant (l_ranges l) (l_current_cycle_length l).
Proof.
  intros cycle_summaries hr_dates. eexists _, _.
  split; [vm_compute; reflexivity|].
  split; [vm_compute; reflexivity|].
  split; [reflexivity|]. split; [reflexivity|]. split; [reflexivity|].
  unfold partition_invariant. simpl. lia.
Qed.

(** C3. With period length 5, no fertile hint and cycle length 28 the
    segmenter gives [menstrual_end = 5], an ovulatory range from day 11
    to day 17 and [luteal_end = 28]; for the single record starting
    2025-01-01, the date 2025-01-01 is mapped to Menstrual, day 1, and
    2025-01-25 to Luteal, day 25, by both functions. *)
Theorem scenario_2025_01 :
  (let r := phase_ranges 5 28 None in
   menstrual_end r = 5 ∧ follicular_end r + 1 = 11 ∧ ovulatory_start r = 11 ∧
   ovulatory_end r = 17 ∧ luteal_end r = 28) ∧
  (∀ user,
     predict_menstrual_phases user [ymd 2025 1 1; ymd 2025 1 25]
       (Some [plain_summary (ymd 2025 1 1) 5]) 28
     = Returned None
         [ {| user_id := user; date := ymd 2025 1 1; start_date := ymd 2025 1 1;
              predicted_phase := Menstrual; cycle_day := 1 |};
           {| user_id := user; date := ymd 2025 1 25; start_date := ymd 2025 1 1;
              predicted_phase := Luteal; cycle_day := 25 |} ]) ∧
  (∃ ctx first last,
     prepare [ymd 2025 1 1; ymd 2025 1 25]
       (Some [plain_summary (ymd 2025 1 1) 5]) 28 = inr ctx ∧
     map_date ctx [ymd 2025 1 1; ymd 2025 1 25] (ymd 2025 1 1) = Ok first ∧
     map_date ctx [ymd 2025 1 1; ymd 2025 1 25] (ymd 2025 1 25) = Ok last ∧
     l_current_cycle_length first = 28 ∧ l_current_cycle_length last = 28 ∧
     l_ranges first = phase_ranges 5 28 None ∧
     l_ranges last = phase_ranges 5 28 None) ∧
  calculate_current_phase [plain_summary (ymd 2025 1 1) 5] (ymd 2025 1 1)
    = inr {| cp_date := ymd 2025 1 1; cp_start_date := ymd 2025 1 1;
             cp_predicted_phase := Menstrual; cp_cycle_day := 1;
             cp_estimated_cycle_length := 28 |} ∧
  calculate_current_phase [plain_summary (ymd 2025 1 1) 5] (ymd 2025 1 25)
    = inr {| cp_date := ymd 2025 1 25; cp_start_date := ymd 2025 1 1;
             cp_predicted_phase := Luteal; cp_cycle_day := 25;
             cp_estimated_cycle_length := 28 |}.
Proof.
  split; [by vm_compute|]. split; [intros user; by vm_compute|].
  split; [|by vm_compute].
  eexists _, _, _. split; [vm_compute; reflexivity|].
  split; [vm_compute; reflexivity|]. split; [vm_compute; reflexivity|].
  by vm_compute.
Qed.

(** * Cycle-length estimate *)

Section estimate.

Implicit Types (starts : list Z).

Lemma consecutive_deltas_length starts :
  length (consecutive_deltas starts) = (length starts - 1)%nat.
Proof.
  unfold consecutive_deltas. rewrite length_zip_with, length_drop. lia.
Qed.

Lemma consecutive_deltas_lookup starts i :
  consecutive_deltas starts !! i =
    match starts !! S i, starts !! i with
    | Some next, Some this => Some (next - this)
    | _, _ => None
    end.
Proof.
  unfold consecutive_deltas. rewrite lookup_zip_with, lookup_drop. simpl.
  destruct (starts !! i) as [this|] eqn:Hi; simpl.
  - by destruct (starts !! S i).
  - destruct (starts !! S i) eqn:HS; [|done].
    apply lookup_lt_Some in HS. apply lookup_ge_None in Hi. lia.
Qed.

Lemma cycle_lengths_prefix starts n :
  (n ≤ length starts - 1)%nat →
  foldl (λ acc i,
           match starts !! S i, starts !! i with
           | Some next, Some this =>
               let cycle_length := next - this in
               if (15 <=? cycle_length) && (cycle_length <=? 45)
               then acc ++ [cycle_length] else acc
           | _, _ => acc
           end) [] (seq 0 n)
  = filter (λ d, 15 ≤ d ≤ 45) (take n (consecutive_deltas starts)).
Proof.
  induction n as [|n IH]; intros Hn; [done|].
  rewrite seq_S, foldl_app, IH by lia. simpl.
  assert (is_Some (consecutive_deltas starts !! n)) as [d Hd].
  { apply lookup_lt_is_Some. rewrite consecutive_deltas_length. lia. }
  rewrite (take_S_r _ _ _ Hd), filter_app.
  rewrite consecutive_deltas_lookup in Hd.
  destruct (starts !! S n) as [next|]; [|done].
  destruct (starts !! n) as [this|]; [|done].
  injection Hd as <-. simpl.
  rewrite filter_cons, filter_nil.
  destruct (decide (15 ≤ next - this ≤ 45)) as [Hin|Hout].
  - replace ((15 <=? next - this) && (next - this <=? 45)) with true; [done|].
    symmetry. apply andb_true_iff. split; apply Z.leb_le; lia.
  - replace ((15 <=? next - this) && (next - this <=? 45)) with false;
      [by rewrite app_nil_r|].
    symmetry. apply andb_false_iff.
    destruct (Z.leb_spec 15 (next - this)); [right|by left].
    apply Z.leb_gt. lia.
Qed.

Lemma cycle_lengths_filter starts :
  cycle_lengths starts = filter (λ d, 15 ≤ d ≤ 45) (consecutive_deltas starts).
Proof.
  unfold cycle_lengths. rewrite cycle_lengths_prefix by done.
  by rewrite <- consecutive_deltas_length, firstn_all.
Qed.

Lemma sum_list_bounds (l : list Z) lo hi :
  Forall (λ d, lo ≤ d ≤ hi) l →
  lo * Z.of_nat (length l) ≤ sum_list l ≤ hi * Z.of_nat (length l).
Proof.
  induction 1 as [|d l Hd _ IH]; simpl; [lia|].
  unfold sum_list in *. simpl. lia.
Qed.

Lemma int_mean_bounds (l : list Z) lo hi :
  0 ≤ lo → l ≠ [] → Forall (λ d, lo ≤ d ≤ hi) l → lo ≤ int_mean l ≤ hi.
Proof.
  intros Hlo Hne Hall. apply sum_list_bounds in Hall. unfold int_mean.
  assert (0 < Z.of_nat (length l)) by (destruct l; simpl in *; [done|lia]).
  rewrite Z.quot_div_nonneg by nia.
  split; [apply Z.div_le_lower_bound; lia|].
  apply Z.div_le_upper_bound; lia.
Qed.

Lemma estimate_cycle_length_range starts default_cycle_length :
  let e := estimate_cycle_length starts default_cycle_length in
  e = default_cycle_length ∨ 15 ≤ e ≤ 45.
Proof.
  unfold estimate_cycle_length.
  pose proof (cycle_lengths_filter starts) as Hf.
  destruct (cycle_lengths starts) as [|d l] eqn:Hl; [by left|right].
  apply int_mean_bounds; [lia|done|].
  rewrite Hf. apply Forall_forall. intros x Hx.
  by apply list_elem_of_filter in Hx as [? _].
Qed.

Lemma estimate_cycle_length_pos starts default_cycle_length :
  0 < default_cycle_length → 0 < estimate_cycle_length starts default_cycle_length.
Proof.
  intros Hd. destruct (estimate_cycle_length_range starts default_cycle_length); lia.
Qed.

End estimate.

Lemma prepare_inr hr_dates menstrual_data default_cycle_length ctx :
  prepare hr_dates menstrual_data default_cycle_length = inr ctx →
  ∃ cycle_summaries,
    menstrual_data = Some cycle_summaries ∧
    ctx_parsed ctx = parse_cycle_summaries cycle_summaries ∧
    ctx_cycle_starts ctx = normalized_history cycle_summaries ∧
    ctx_estimated_cycle_length ctx =
      estimate_cycle_length (ctx_cycle_starts ctx) default_cycle_length ∧
    ctx_cycle_start_indices ctx =
      cycle_start_indices_of (ctx_cycle_starts ctx) hr_dates ∧
    ctx_cycle_start_indices ctx ≠ [].
Proof.
  unfold prepare, normalized_history.
  destruct hr_dates as [|d0 hr_dates]; [done|].
  destruct menstrual_data as [[|c cs]|]; [done| |done].
  destruct (cycle_starts (parse_cycle_summaries (c :: cs))) as [|s0 ss] eqn:Hstarts;
    [done|].
  destruct (cycle_start_indices_of (filter_cycle_starts (s0 :: ss)) (d0 :: hr_dates))
    as [|i0 idxs] eqn:Hcsi; [done|].
  intros [= <-]. exists (c :: cs). simpl. rewrite Hstarts. by rewrite Hcsi.
Qed.

Lemma prepare_defined hr_dates cycle_summaries default_cycle_length :
  hr_dates ≠ [] →
  cycle_start_indices_of (normalized_history cycle_summaries) hr_dates ≠ [] →
  ∃ ctx, prepare hr_dates (Some cycle_summaries) default_cycle_length = inr ctx.
Proof.
  unfold prepare, normalized_history. intros Hd Hcsi.
  destruct hr_dates as [|d0 hr_dates]; [done|].
  destruct cycle_summaries as [|c cs]; [done|].
  destruct (cycle_starts (parse_cycle_summaries (c :: cs))) as [|s0 ss]; [done|].
  destruct (cycle_start_indices_of (filter_cycle_starts (s0 :: ss)) (d0 :: hr_dates));
    [done|]. by eexists.
Qed.

(** C8. The estimate is the truncated mean of the consecutive deltas that
    lie in [[15, 45]], and the default when there is none; a history of
    one record gets the default, 28 in particular; deltas of 29 and 30
    days give 29. *)
Theorem estimate_cycle_length_spec :
  (∀ starts default_cycle_length,
     estimate_cycle_length starts default_cycle_length
     = spec_estimated_cycle_length starts default_cycle_length) ∧
  (∀ hr_dates cycle_summaries default_cycle_length ctx,
     prepare hr_dates (Some cycle_summaries) default_cycle_length = inr ctx →
     ctx_estimated_cycle_length ctx
     = spec_estimated_cycle_length (normalized_history cycle_summaries)
         default_cycle_length) ∧
  (∀ start default_cycle_length,
     estimate_cycle_length [start] default_cycle_length = default_cycle_length) ∧
  (∀ start, estimate_cycle_length [start] 28 = 28) ∧
  estimate_cycle_length [ymd 2024 1 1; ymd 2024 1 30; ymd 2024 2 29] 28 = 29.
Proof.
  assert (∀ starts d,
            estimate_cycle_length starts d = spec_estimated_cycle_length starts d)
    as Hspec.
  { intros starts d. unfold estimate_cycle_length, spec_estimated_cycle_length.
    by rewrite cycle_lengths_filter. }
  split; [exact Hspec|]. split; [|split; [|split]].
  - intros hr_dates cs d ctx (cs' & [= <-] & _ & Hstarts & Hest & _)%prepare_inr.
    by rewrite Hest, Hstarts, Hspec.
  - done.
  - done.
  - by vm_compute.
Qed.

Lemma estimate_cycle_length_spec_witness :
  let hr_dates := [ymd 2024 1 1; ymd 2024 3 1] in
  let cycle_summaries :=
    [plain_summary (ymd 2024 1 1) 5; plain_summary (ymd 2024 1 30) 5;
     plain_summary (ymd 2024 2 29) 5] in
  ∃ ctx,
    prepare hr_dates (Some cycle_summaries) 28 = inr ctx ∧
    consecutive_deltas (normalized_history cycle_summaries) = [29; 30] ∧
    ctx_estimated_cycle_length ctx = 29.
Proof.
  intros hr_dates cycle_summaries.
  destruct (prepare hr_dates (Some cycle_summaries) 28) as [diag|ctx] eqn:Hprep;
    [by vm_compute in Hprep|].
  exists ctx. split; [done|]. split; [by vm_compute|].
  rewrite (proj1 (proj2 estimate_cycle_length_spec) hr_dates cycle_summaries 28
             ctx Hprep).
  by vm_compute.
Defined.

(** * The loop over the target dates *)

Lemma mapM_Ok_Forall2 {A B} (f : A → result B) (l : list A) (bs : list B) :
  mapM f l = Ok bs → Forall2 (λ a b, f a = Ok b) l bs.
Proof.
  revert bs. induction l as [|a l IH]; intros bs; simpl.
  { intros [= <-]. constructor. }
  unfold mbind, result_bind.
  destruct (f a) as [b|] eqn:Hb; [|done].
  destruct (mapM f l) as [bs'|]; [|done].
  intros [= <-]. constructor; [done|by apply IH].
Qed.

Lemma minus_days_Ok d n r :
  minus_days d n = Ok r → r = d - n ∧ is_datetime r.
Proof.
  unfold minus_days, is_datetime.
  destruct (max_timedelta_days <? Z.abs n); [done|].
  destruct (Z.ltb_spec (d - n) min_ordinal); [done|].
  destruct (Z.ltb_spec max_ordinal (d - n)); [done|].
  simpl. intros [= <-]. lia.
Qed.

Lemma minus_days_datetime d n :
  is_datetime d → is_datetime (d - n) → minus_days d n = Ok (d - n).
Proof.
  unfold minus_days, is_datetime, min_ordinal, max_ordinal, max_timedelta_days.
  intros Hd Hr.
  destruct (Z.ltb_spec 999999999 (Z.abs n)); [lia|].
  destruct (Z.ltb_spec (d - n) 1); [lia|].
  destruct (Z.ltb_spec 3652059 (d - n)); [lia|done].
Qed.

Lemma getitem_nat {A} (l : list A) (n : nat) :
  getitem l (Z.of_nat n) =
    match l !! n with
    | Some x => Ok x
    | None => Raise IndexError
    end.
Proof.
  unfold getitem.
  destruct (Z.ltb_spec (Z.of_nat n) 0); [lia|].
  destruct (Z.ltb_spec (Z.of_nat n) 0); [lia|].
  by rewrite Nat2Z.id.
Qed.

Lemma getitem_zero {A} (l : list A) :
  getitem l 0 =
    match head l with
    | Some x => Ok x
    | None => Raise IndexError
    end.
Proof. by destruct l. Qed.

Lemma getitem_minus_one {A} (l : list A) :
  getitem l (-1) =
    match last l with
    | Some x => Ok x
    | None => Raise IndexError
    end.
Proof.
  unfold getitem. simpl. destruct l as [|a l]; [done|].
  rewrite last_lookup. simpl length.
  destruct (Z.ltb_spec (-1 + Z.of_nat (S (length l))) 0); [lia|].
  replace (Z.to_nat (-1 + Z.of_nat (S (length l)))) with (length l) by lia.
  done.
Qed.

Lemma StronglySorted_lookup_le (l : list Z) i j a b :
  StronglySorted Z.le l → (i ≤ j)%nat → l !! i = Some a → l !! j = Some b → a ≤ b.
Proof.
  intros Hs. revert i j. induction Hs as [|x l Hs IH Hall]; intros i j Hij Hi Hj.
  { by rewrite lookup_nil in Hi. }
  destruct i as [|i], j as [|j]; simpl in *; try lia.
  - simplify_eq. lia.
  - simplify_eq. eapply Forall_lookup_1 in Hall; [|done]. done.
  - eapply IH; [|done..]. lia.
Qed.

Section indices.

Variable dates : list Z.

Implicit Types (starts : list Z) (s d date : Z) (i j k p : nat).
Implicit Types (z : list (nat * Z)).

Lemma first_index_ge_Some s i :
  first_index_ge dates s = Some i ↔
    ∃ d, dates !! i = Some d ∧ s ≤ d ∧
         ∀ j d', dates !! j = Some d' → (j < i)%nat → d' < s.
Proof.
  unfold first_index_ge. rewrite fmap_Some. split.
  - intros [[i' d] [Hfind ->]]. apply list_find_Some in Hfind as (?&?&Hmin).
    exists d. split_and!; [done..|]. intros j d' Hj Hlt.
    specialize (Hmin j d' Hj Hlt). simpl in Hmin. lia.
  - intros (d & ? & ? & Hmin). exists (i, d). split; [|done].
    apply list_find_Some. split_and!; [done..|]. intros j y Hj Hlt ?.
    specialize (Hmin j y Hj Hlt). lia.
Qed.

Lemma first_index_ge_is_Some s d :
  d ∈ dates → s ≤ d → is_Some (first_index_ge dates s).
Proof.
  intros Hin Hle. unfold first_index_ge. apply fmap_is_Some.
  by eapply (list_find_elem_of (λ d, s ≤ d)).
Qed.

Lemma first_index_ge_mono s s' i' :
  s ≤ s' → first_index_ge dates s' = Some i' →
  ∃ i, first_index_ge dates s = Some i ∧ (i ≤ i')%nat.
Proof.
  intros Hle (d' & Hd' & Hsd' & Hmin')%first_index_ge_Some.
  destruct (first_index_ge_is_Some s d') as [i Hi];
    [by eapply list_elem_of_lookup_2 | lia |].
  exists i. split; [done|].
  apply first_index_ge_Some in Hi as (d & ? & ? & Hmin).
  destruct (decide (i ≤ i')%nat); [done|].
  assert (d' < s) by (apply (Hmin i' d' Hd'); lia). lia.
Qed.

Lemma first_index_ge_None_mono s s' :
  s ≤ s' → first_index_ge dates s = None → first_index_ge dates s' = None.
Proof.
  intros Hle Hnone. destruct (first_index_ge dates s') as [i'|] eqn:H'; [|done].
  destruct (first_index_ge_mono s s' i' Hle H') as (?&?&?). congruence.
Qed.

Lemma omap_all_None starts :
  Forall (λ s, first_index_ge dates s = None) starts →
  omap (first_index_ge dates) starts = [].
Proof. induction 1 as [|s starts Hs _ IH]; simpl; [done|]. by rewrite Hs. Qed.

(** The indices are those of a prefix of the sorted starts: position [k]
    of the index list belongs to position [k] of the starts. *)
Lemma cycle_start_indices_lookup starts k :
  StronglySorted Z.le starts →
  cycle_start_indices_of starts dates !! k = starts !! k ≫= first_index_ge dates.
Proof.
  intros Hs. revert k. unfold cycle_start_indices_of.
  induction Hs as [|s starts Hs IH Hall]; intros k; [done|]. simpl.
  destruct (first_index_ge dates s) as [i|] eqn:Hi.
  - destruct k as [|k]; simpl; [done|apply IH].
  - assert (Forall (λ s, first_index_ge dates s = None) starts) as Hnone.
    { eapply Forall_impl; [exact Hall|]. intros s' Hle. simpl in Hle.
      by eapply first_index_ge_None_mono. }
    rewrite omap_all_None by done. rewrite lookup_nil.
    destruct k as [|k]; simpl; [done|].
    destruct (starts !! k) as [s'|] eqn:Hk; simpl; [|done].
    symmetry. by eapply Forall_lookup_1 in Hnone.
Qed.

Lemma find_cycle_start_acc z date x :
  is_Some (find_cycle_start z date (Some x)).
Proof.
  revert x. induction z as [|[i s] z IH]; intros x; simpl; [eauto|].
  destruct (s <=? date); eauto.
Qed.

Lemma find_cycle_start_elem z date found s i :
  find_cycle_start z date found = Some (s, i) →
  found = Some (s, i) ∨ ∃ p, z !! p = Some (i, s).
Proof.
  revert found. induction z as [|[i' s'] z IH]; intros found; simpl; [by left|].
  destruct (s' <=? date); [|by left].
  intros [Heq|[p Hp]]%IH; right.
  - exists 0%nat. by simplify_eq.
  - by exists (S p).
Qed.

Lemma find_cycle_start_le z date found s i :
  (∀ s0 i0, found = Some (s0, i0) → s0 ≤ date) →
  find_cycle_start z date found = Some (s, i) → s ≤ date.
Proof.
  revert found. induction z as [|[i' s'] z IH]; intros found Hfound; simpl.
  - intros ->. by eapply Hfound.
  - destruct (Z.leb_spec s' date).
    + apply IH. by intros ? ? [= <- <-].
    + intros ->. by eapply Hfound.
Qed.

Lemma find_cycle_start_None_head i0 s0 z date :
  find_cycle_start ((i0, s0) :: z) date None = None → date < s0.
Proof.
  simpl. destruct (Z.leb_spec s0 date); [|done].
  intros Hnone. destruct (find_cycle_start_acc z date (s0, i0)) as [? ?].
  congruence.
Qed.

Lemma find_cycle_start_at z1 i s z2 date found :
  Forall (λ x, x.2 ≤ date) z1 → s ≤ date →
  (∀ x, head z2 = Some x → date < x.2) →
  find_cycle_start (z1 ++ (i, s) :: z2) date found = Some (s, i).
Proof.
  intros Hz1 Hs Hz2. revert found.
  induction Hz1 as [|[i' s'] z1 Hle _ IH]; intros found; simpl.
  - destruct (Z.leb_spec s date); [|lia].
    destruct z2 as [|[i2 s2] z2]; simpl; [done|].
    specialize (Hz2 (i2, s2) eq_refl). simpl in Hz2.
    destruct (Z.leb_spec s2 date); [lia|done].
  - simpl in Hle. destruct (Z.leb_spec s' date); [|lia]. apply IH.
Qed.

End indices.

Lemma current_cycle_length_of_unfold csi (dates : list Z) cycle_start idx est :
  let read i' :=
    match dates !! i' with
    | Some d => Ok (d - cycle_start)
    | None => Raise IndexError
    end in
  current_cycle_length_of csi dates cycle_start idx est =
    match list_find (λ i, i = idx) csi with
    | Some (q, _) =>
        match csi !! S q with
        | Some i' => read i'
        | None => Ok est
        end
    | None =>
        match last csi with
        | Some i' => read i'
        | None => Raise IndexError
        end
    end.
Proof.
  intros read. unfold current_cycle_length_of, next_cycle_idx_of.
  destruct (list_find (λ i, i = idx) csi) as [[q x]|] eqn:Hfind.
  - replace (Z.of_nat q + 1) with (Z.of_nat (S q)) by lia.
    destruct (Z.ltb_spec (Z.of_nat (S q)) (Z.of_nat (length csi))) as [Hlt|Hge].
    + rewrite getitem_nat.
      destruct (lookup_lt_is_Some_2 csi (S q)) as [i' Hi']; [lia|].
      rewrite Hi'. unfold mbind, result_bind. rewrite getitem_nat.
      unfold read. by destruct (dates !! i').
    + rewrite (proj2 (lookup_ge_None csi (S q))) by lia. done.
  - destruct (Z.ltb_spec (-1) (Z.of_nat (length csi))); [|lia].
    rewrite getitem_minus_one. destruct (last csi) as [i'|]; [|done].
    unfold mbind, result_bind. rewrite getitem_nat.
    unfold read. by destruct (dates !! i').
Qed.

Lemma first_date_ge_index dates s i :
  first_index_ge dates s = Some i → first_date_ge dates s = dates !! i.
Proof.
  unfold first_index_ge, first_date_ge.
  destruct (list_find (λ d, s ≤ d) dates) as [[i' d]|] eqn:Hfind; [|done].
  simpl. intros [= ->]. by apply list_find_Some in Hfind as [-> _].
Qed.

Lemma first_date_ge_None dates s :
  first_index_ge dates s = None → first_date_ge dates s = None.
Proof.
  unfold first_index_ge, first_date_ge.
  by destruct (list_find (λ d, s ≤ d) dates) as [[i' d]|].
Qed.

Lemma first_date_ge_sorted dates s :
  StronglySorted Z.le dates → s ∈ dates → first_date_ge dates s = Some s.
Proof.
  intros Hsorted Hin. unfold first_date_ge.
  destruct (list_find_elem_of (λ d, s ≤ d) dates s Hin) as [[i d] Hfind]; [simpl; lia|].
  rewrite Hfind. simpl. f_equal.
  apply list_find_Some in Hfind as (Hi & Hle & Hmin).
  apply list_elem_of_lookup in Hin as [j Hj].
  destruct (decide (i ≤ j)%nat).
  - assert (d ≤ s) by by eapply (StronglySorted_lookup_le dates i j). lia.
  - destruct (Hmin j s); [done|lia|lia].
Qed.

Section governing.

Variables (dates starts : list Z).
Hypothesis starts_sorted : StronglySorted Z.le starts.

Let csi := cycle_start_indices_of starts dates.

Implicit Types (s d date : Z) (i j k p q : nat).

Lemma indices_lookup_Some k i :
  csi !! k = Some i →
  ∃ s d, starts !! k = Some s ∧ first_index_ge dates s = Some i ∧
         dates !! i = Some d ∧ s ≤ d.
Proof.
  unfold csi. rewrite cycle_start_indices_lookup by done.
  destruct (starts !! k) as [s|]; simpl; [|done]. intros Hi.
  pose proof Hi as (d & ? & ? & _)%first_index_ge_Some. by exists s, d.
Qed.

Lemma indices_lookup_mono k k' i i' :
  (k ≤ k')%nat → csi !! k = Some i → csi !! k' = Some i' → (i ≤ i')%nat.
Proof.
  intros Hle (s & _ & Hs & Hi & _)%indices_lookup_Some
             (s' & _ & Hs' & Hi' & _)%indices_lookup_Some.
  assert (s ≤ s') by by eapply StronglySorted_lookup_le.
  destruct (first_index_ge_mono dates s s' i') as (i0 & ? & ?); [done..|].
  by simplify_eq.
Qed.

Lemma zip_indices_lookup p i s :
  zip csi starts !! p = Some (i, s) ↔
    starts !! p = Some s ∧ first_index_ge dates s = Some i.
Proof.
  rewrite lookup_zip_Some. unfold csi.
  rewrite cycle_start_indices_lookup by done. split.
  - intros [Hi Hs]. rewrite Hs in Hi. done.
  - intros [Hs Hi]. rewrite Hs. done.
Qed.

(** The length used for a cycle whose start is recorded: it is read at
    the position after the first occurrence of the start's date index. *)
Lemma current_cycle_length_recorded p s i est :
  starts !! p = Some s → first_index_ge dates s = Some i →
  ∃ q, (q ≤ p)%nat ∧ csi !! q = Some i ∧
       (∀ j, (j < q)%nat → csi !! j ≠ Some i) ∧
       current_cycle_length_of csi dates s i est =
         match csi !! S q with
         | Some i' => Ok (default 0 (dates !! i') - s)
         | None => Ok est
         end ∧
       ∀ i', csi !! S q = Some i' → s ≤ default 0 (dates !! i').
Proof.
  intros Hs Hi.
  assert (csi !! p = Some i) as Hp.
  { unfold csi. rewrite cycle_start_indices_lookup by done. by rewrite Hs. }
  destruct (list_find (λ i', i' = i) csi) as [[q x]|] eqn:Hfind; last first.
  { apply list_find_None in Hfind. eapply Forall_lookup_1 in Hfind; [|done]. done. }
  pose proof Hfind as (Hq & -> & Hmin)%list_find_Some.
  assert (q ≤ p)%nat as Hqp.
  { destruct (decide (q ≤ p)%nat); [done|]. destruct (Hmin p i); [done|lia|done]. }
  exists q. split_and!; [done|done| |..].
  - intros j Hj Hji. by destruct (Hmin j i).
  - rewrite current_cycle_length_of_unfold, Hfind.
    destruct (csi !! S q) as [i'|] eqn:Hi'; [|done].
    apply indices_lookup_Some in Hi' as (s' & d & _ & _ & -> & _). done.
  - intros i' Hi'. pose proof Hi' as (s' & d' & Hs' & Hfs' & Hd' & Hle')%indices_lookup_Some.
    rewrite Hd'. simpl.
    destruct (decide (S q ≤ p)%nat) as [Hle|Hgt].
    + assert (i ≤ i')%nat by (eapply (indices_lookup_mono q (S q)); [lia|done..]).
      assert (i' ≤ i)%nat by by eapply (indices_lookup_mono (S q) p).
      assert (i' = i) as -> by lia.
      apply first_index_ge_Some in Hi as (d & Hd & ? & _). by simplify_eq.
    + assert (s ≤ s'); [|lia].
      eapply (StronglySorted_lookup_le starts p (S q)); [done|lia|done..].
Qed.

(** The length used for a cycle start that precedes every recorded
    start. *)
Lemma current_cycle_length_projected first cycle_start idx est :
  csi ≠ [] → head starts = Some first → cycle_start < first → 0 < est →
  ∃ L, current_cycle_length_of csi dates cycle_start idx est = Ok L ∧ 0 < L.
Proof.
  intros Hne Hfirst Hlt Hest.
  assert (∀ k i', csi !! k = Some i' →
            ∃ d, dates !! i' = Some d ∧ cycle_start < d) as Hany.
  { intros k i' (s & d & Hs & _ & Hd & Hle)%indices_lookup_Some.
    exists d. split; [done|].
    assert (first ≤ s); [|lia].
    eapply (StronglySorted_lookup_le starts 0 k); [done|lia| |done].
    by rewrite <- head_lookup. }
  rewrite current_cycle_length_of_unfold.
  destruct (list_find (λ i, i = idx) csi) as [[q x]|].
  - destruct (csi !! S q) as [i'|] eqn:Hi'; [|by exists est].
    destruct (Hany _ _ Hi') as (d & -> & ?). exists (d - cycle_start). split; [done|lia].
  - destruct (last csi) as [i'|] eqn:Hlast.
    + rewrite last_lookup in Hlast.
      destruct (Hany _ _ Hlast) as (d & -> & ?). exists (d - cycle_start).
      split; [done|lia].
    + by apply last_None in Hlast.
Qed.

End governing.

Lemma prepare_sorted hr_dates menstrual_data default_cycle_length ctx :
  prepare hr_dates menstrual_data default_cycle_length = inr ctx →
  spaced (ctx_cycle_starts ctx) ∧ StronglySorted Z.le (ctx_cycle_starts ctx).
Proof.
  intros (cs & _ & _ & -> & _)%prepare_inr. unfold normalized_history.
  pose proof (filter_cycle_starts_spaced (cycle_starts (parse_cycle_summaries cs)))
    as Hsp.
  split; [done|]. by apply spaced_sorted.
Qed.

Lemma cycle_day_within_phase_Ok cycle_day cycle_length day :
  cycle_day_within_phase cycle_day cycle_length = Ok day ↔
    cycle_length ≠ 0 ∧ day = fold_day cycle_day cycle_length.
Proof.
  unfold cycle_day_within_phase, pymod, fold_day.
  destruct (Z.eqb_spec cycle_length 0) as [->|Hne]; simpl.
  { split; [done|]. by intros [? _]. }
  destruct (cycle_day mod cycle_length =? 0); simpl;
    (split; [by intros [= <-] | by intros [_ ->]]).
Qed.

Lemma fold_day_range cycle_day cycle_length :
  0 < cycle_length → 1 ≤ fold_day cycle_day cycle_length ≤ cycle_length.
Proof.
  intros Hpos. unfold fold_day.
  pose proof (Z.mod_pos_bound cycle_day cycle_length Hpos).
  destruct (Z.eqb_spec (cycle_day mod cycle_length) 0); lia.
Qed.

Lemma map_date_Ok ctx dates date l :
  map_date ctx dates date = Ok l ↔
    ∃ cycle_start idx L,
      locate_cycle ctx date = Ok (cycle_start, idx) ∧
      current_cycle_length_of (ctx_cycle_start_indices ctx) dates
        cycle_start idx (ctx_estimated_cycle_length ctx) = Ok L ∧
      L ≠ 0 ∧
      l = {| l_cycle_start := cycle_start;
             l_cycle_day := date - cycle_start + 1;
             l_current_cycle_length := L;
             l_ranges :=
               phase_ranges
                 (default 5 (period_lengths (ctx_parsed ctx) !! cycle_start)) L
                 (fertile_windows (ctx_parsed ctx) !! cycle_start);
             l_cycle_day_within_phase := fold_day (date - cycle_start + 1) L;
             l_predicted_phase :=
               classify (fold_day (date - cycle_start + 1) L)
                 (phase_ranges
                    (default 5 (period_lengths (ctx_parsed ctx) !! cycle_start)) L
                    (fertile_windows (ctx_parsed ctx) !! cycle_start)) |}.
Proof.
  unfold map_date, mbind, result_bind.
  destruct (locate_cycle ctx date) as [[cycle_start idx]|];
    [|split; [done|by intros (? & ? & ? & ? & _)]].
  destruct (current_cycle_length_of _ _ _ _ _) as [L|] eqn:HL;
    [|split; [done|intros (? & ? & ? & [= <- <-] & ? & _); congruence]].
  destruct (decide (L = 0)) as [->|Hne].
  - unfold cycle_day_within_phase, pymod. simpl.
    split; [done|]. intros (? & ? & ? & [= <- <-] & ? & ? & _). congruence.
  - rewrite (proj2 (cycle_day_within_phase_Ok _ L _) (conj Hne eq_refl)).
    split.
    + intros [= <-]. by eexists _, _, _.
    + intros (? & ? & ? & [= <- <-] & ? & _ & ->). f_equal. congruence.
Qed.

Section mapper.

Variables (hr_dates : list Z) (menstrual_data : option (list CycleSummary)).
Variables (default_cycle_length : Z) (ctx : Context).
Hypothesis default_pos : 0 < default_cycle_length.
Hypothesis prepared : prepare hr_dates menstrual_data default_cycle_length = inr ctx.

Let starts := ctx_cycle_starts ctx.
Let est := ctx_estimated_cycle_length ctx.

Lemma prepared_indices :
  ctx_cycle_start_indices ctx = cycle_start_indices_of starts hr_dates.
Proof. by destruct (prepare_inr _ _ _ _ prepared) as (? & _ & _ & _ & _ & ? & _). Qed.

Lemma prepared_sorted : StronglySorted Z.le starts.
Proof. by destruct (prepare_sorted _ _ _ _ prepared). Qed.

Lemma prepared_estimate_pos : 0 < est.
Proof.
  destruct (prepare_inr _ _ _ _ prepared) as (? & _ & _ & _ & Hest & _).
  unfold est. rewrite Hest. by apply estimate_cycle_length_pos.
Qed.

Lemma prepared_zip_head :
  ∃ i0 first z, head starts = Some first ∧
    zip (ctx_cycle_start_indices ctx) starts = (i0, first) :: z.
Proof.
  destruct (prepare_inr _ _ _ _ prepared) as (? & _ & _ & _ & _ & Hcsi & Hne).
  fold starts in Hcsi.
  destruct (ctx_cycle_start_indices ctx) as [|i0 csi] eqn:Hc; [done|].
  assert (cycle_start_indices_of starts hr_dates !! 0%nat = Some i0) as H0
    by by rewrite <- Hcsi.
  apply indices_lookup_Some in H0 as (first & _ & Hfirst & _);
    [|exact prepared_sorted].
  destruct starts as [|s0 ss]; [done|]. simpl in Hfirst. simplify_eq.
  by exists i0, first, (zip csi ss).
Qed.

(** A date before the first recorded start is given a synthetic cycle
    start whole estimated cycles before it. *)
Lemma locate_cycle_projected first date :
  head starts = Some first → date < first →
  locate_cycle ctx date =
    (cycle_start ← minus_days first (((first - date) / est + 1) * est);
     Ok (cycle_start, 0%nat)).
Proof.
  intros Hfirst Hlt. unfold locate_cycle. fold starts.
  destruct prepared_zip_head as (i0 & first' & z & Hfirst' & ->).
  assert (first' = first) as -> by congruence.
  simpl. destruct (Z.leb_spec first date); [lia|].
  rewrite getitem_zero, Hfirst.
  unfold mbind, result_bind, floordiv. fold est.
  pose proof prepared_estimate_pos.
  destruct (Z.eqb_spec est 0); [lia|done].
Qed.

Lemma locate_cycle_recorded date cycle_start idx :
  locate_cycle ctx date = Ok (cycle_start, idx) →
  (∃ first, head starts = Some first ∧ date < first ∧ cycle_start < first) ∨
  (∃ p, starts !! p = Some cycle_start ∧
        first_index_ge hr_dates cycle_start = Some idx ∧ cycle_start ≤ date).
Proof.
  intros Hloc.
  destruct prepared_zip_head as (i0 & first & z & Hfirst & Hzip).
  destruct (decide (date < first)) as [Hlt|Hge].
  - left. exists first. split_and!; [done..|].
    rewrite (locate_cycle_projected first) in Hloc by done.
    unfold mbind, result_bind in Hloc.
    destruct (minus_days first _) as [r|] eqn:Hr; [|done].
    apply minus_days_Ok in Hr as [-> _]. simplify_eq.
    pose proof prepared_estimate_pos.
    assert (0 ≤ (first - date) / est) by (apply Z.div_pos; lia). nia.
  - right. unfold locate_cycle in Hloc. fold starts in Hloc.
    destruct (find_cycle_start _ date None) as [[s i]|] eqn:Hfind.
    + simplify_eq.
      assert (cycle_start ≤ date) as Hle.
      { eapply find_cycle_start_le; [|exact Hfind]. done. }
      apply find_cycle_start_elem in Hfind as [?|[p Hp]]; [done|].
      rewrite prepared_indices in Hp.
      apply zip_indices_lookup in Hp as [? ?]; [|exact prepared_sorted].
      by exists p.
    + rewrite Hzip in Hfind. apply find_cycle_start_None_head in Hfind. lia.
Qed.

Lemma prepared_indices_nonempty : cycle_start_indices_of starts hr_dates ≠ [].
Proof.
  rewrite <- prepared_indices.
  by destruct (prepare_inr _ _ _ _ prepared) as (? & _ & _ & _ & _ & _ & ?).
Qed.

(** Every prediction is made with a positive cycle length. *)
Lemma map_date_length_pos date l :
  map_date ctx hr_dates date = Ok l → 0 < l_current_cycle_length l.
Proof.
  intros (cs & idx & L & Hloc & Hccl & Hne & ->)%map_date_Ok. simpl.
  rewrite prepared_indices in Hccl. fold est in Hccl.
  destruct (locate_cycle_recorded _ _ _ Hloc)
    as [(first & Hfirst & Hlt & Hcs)|(p & Hp & Hidx & Hle)].
  - destruct (current_cycle_length_projected hr_dates starts prepared_sorted
                first cs idx est) as (L' & HL' & ?);
      [exact prepared_indices_nonempty|done|done|exact prepared_estimate_pos|].
    congruence.
  - destruct (current_cycle_length_recorded hr_dates starts prepared_sorted
                p cs idx est Hp Hidx) as (q & _ & _ & _ & Heq & Hge).
    rewrite Heq in Hccl.
    destruct (cycle_start_indices_of starts hr_dates !! S q) as [i'|].
    + specialize (Hge i' eq_refl). simplify_eq. lia.
    + pose proof prepared_estimate_pos. by simplify_eq.
Qed.

Lemma map_date_projected first date :
  head starts = Some first → date < first →
  is_datetime first →
  is_datetime (first - ((first - date) / est + 1) * est) →
  ∃ l, map_date ctx hr_dates date = Ok l ∧
       l_cycle_start l = first - ((first - date) / est + 1) * est ∧
       l_cycle_day l = date - l_cycle_start l + 1.
Proof.
  intros Hfirst Hlt Hdt Hdt'.
  pose proof (locate_cycle_projected first date Hfirst Hlt) as Hloc.
  replace (first - ((first - date) / est + 1) * est)
    with (first - (((first - date) / est + 1) * est)) in Hdt' by lia.
  rewrite (minus_days_datetime _ _ Hdt Hdt') in Hloc.
  unfold mbind, result_bind in Hloc.
  assert (first - ((first - date) / est + 1) * est < first) as Hcs.
  { pose proof prepared_estimate_pos.
    assert (0 ≤ (first - date) / est) by (apply Z.div_pos; lia). nia. }
  destruct (current_cycle_length_projected hr_dates starts prepared_sorted
              first (first - ((first - date) / est + 1) * est) 0%nat est)
    as (L & HL & HLpos);
    [exact prepared_indices_nonempty|done|done|exact prepared_estimate_pos|].
  eexists. split.
  { apply map_date_Ok. eexists _, _, L. split; [exact Hloc|].
    rewrite prepared_indices. split; [exact HL|]. split; [lia|reflexivity]. }
  split; reflexivity.
Qed.

Lemma locate_cycle_at p s date :
  starts !! p = Some s → s ≤ date →
  (∀ s', starts !! S p = Some s' → date < s') →
  date ∈ hr_dates →
  ∃ i, first_index_ge hr_dates s = Some i ∧ locate_cycle ctx date = Ok (s, i).
Proof.
  intros Hp Hle Hnext Hin.
  destruct (first_index_ge_is_Some hr_dates s date Hin Hle) as [i Hi].
  exists i. split; [done|].
  unfold locate_cycle. fold starts. rewrite prepared_indices.
  set (z := zip (cycle_start_indices_of starts hr_dates) starts).
  assert (z !! p = Some (i, s)) as Hz
    by by apply zip_indices_lookup; [exact prepared_sorted|].
  rewrite <- (take_drop_middle z p (i, s) Hz).
  rewrite (find_cycle_start_at (take p z) i s (drop (S p) z) date None); [done| |done|].
  - apply Forall_lookup. intros k [ik sk] Hk.
    apply lookup_take_Some in Hk as [Hk Hkp].
    apply zip_indices_lookup in Hk as [Hk _]; [|exact prepared_sorted].
    simpl. assert (sk ≤ s); [|lia].
    eapply (StronglySorted_lookup_le starts k p); [exact prepared_sorted|lia|done..].
  - intros [i' s']. rewrite head_lookup, lookup_drop.
    replace (S p + 0)%nat with (S p) by lia. intros Hx.
    apply zip_indices_lookup in Hx as [Hx _]; [|exact prepared_sorted].
    simpl. by apply Hnext.
Qed.

Lemma map_date_recorded p s date :
  starts !! p = Some s → s ≤ date →
  (∀ s', starts !! S p = Some s' → date < s') →
  date ∈ hr_dates →
  (∀ k sk, (k < p)%nat → starts !! k = Some sk →
           first_index_ge hr_dates sk ≠ first_index_ge hr_dates s) →
  ∃ l, map_date ctx hr_dates date = Ok l ∧
       l_cycle_start l = s ∧
       l_current_cycle_length l =
         match starts !! S p ≫= first_date_ge hr_dates with
         | Some d => d - s
         | None => est
         end.
Proof.
  intros Hp Hle Hnext Hin Hdistinct.
  destruct (locate_cycle_at p s date Hp Hle Hnext Hin) as (i & Hi & Hloc).
  destruct (current_cycle_length_recorded hr_dates starts prepared_sorted
              p s i est Hp Hi) as (q & Hqp & Hq & _ & Heq & _).
  assert (q = p) as ->.
  { destruct (decide (q = p)); [done|].
    apply indices_lookup_Some in Hq as (sq & _ & Hsq & Hfq & _);
      [|exact prepared_sorted].
    destruct (Hdistinct q sq); [lia|done|congruence]. }
  rewrite cycle_start_indices_lookup in Heq by exact prepared_sorted.
  set (L := match starts !! S p ≫= first_date_ge hr_dates with
            | Some d => d - s
            | None => est
            end).
  assert (current_cycle_length_of (cycle_start_indices_of starts hr_dates)
            hr_dates s i est = Ok L ∧ 0 < L) as [HL HLpos].
  { rewrite Heq. unfold L.
    destruct (starts !! S p) as [s'|] eqn:Hs'; simpl;
      [|split; [done|exact prepared_estimate_pos]].
    specialize (Hnext s' eq_refl).
    destruct (first_index_ge hr_dates s') as [i'|] eqn:Hi'.
    - rewrite (first_date_ge_index _ _ _ Hi').
      apply first_index_ge_Some in Hi' as (d' & -> & ? & _). simpl.
      split; [done|lia].
    - rewrite (first_date_ge_None _ _ Hi').
      split; [done|exact prepared_estimate_pos]. }
  eexists. split.
  { apply map_date_Ok. eexists _, _, L. split; [exact Hloc|].
    rewrite prepared_indices. split; [exact HL|]. split; [lia|reflexivity]. }
  split; reflexivity.
Qed.

End mapper.

Lemma predict_date_Ok user ctx dates date p :
  predict_date user ctx dates date = Ok p ↔
    ∃ l, map_date ctx dates date = Ok l ∧ p = prediction_of user date l.
Proof.
  unfold predict_date, mbind, result_bind.
  destruct (map_date ctx dates date) as [l|].
  - split; [intros [= <-]; by exists l | by intros (? & [= <-] & ->)].
  - split; [done | by intros (? & ? & _)].
Qed.

(** C7. Every emitted prediction reports the 1-based offset of its date
    from its cycle start, folded modulo the length used for the cycle
    with a zero remainder replaced by that length; the length is
    positive, and the reported day lies between 1 and it. *)
Theorem cycle_day_folded
    user hr_dates menstrual_data default_cycle_length printed predictions p :
  0 < default_cycle_length →
  predict_menstrual_phases user hr_dates menstrual_data default_cycle_length
    = Returned printed predictions →
  p ∈ predictions →
  ∃ ctx l,
    prepare hr_dates menstrual_data default_cycle_length = inr ctx ∧
    date p ∈ hr_dates ∧
    map_date ctx hr_dates (date p) = Ok l ∧
    start_date p = l_cycle_start l ∧
    0 < l_current_cycle_length l ∧
    cycle_day p
      = fold_day (date p - start_date p + 1) (l_current_cycle_length l) ∧
    1 ≤ cycle_day p ≤ l_current_cycle_length l.
Proof.
  intros Hdefault Hrun Hp. unfold predict_menstrual_phases in Hrun.
  destruct (prepare hr_dates menstrual_data default_cycle_length)
    as [diag|ctx] eqn:Hprep.
  { simplify_eq. by apply elem_of_nil in Hp. }
  destruct (mapM (predict_date user ctx hr_dates) hr_dates) as [ps|] eqn:Hmap;
    [|done].
  simplify_eq. apply mapM_Ok_Forall2 in Hmap.
  apply list_elem_of_lookup in Hp as [n Hn].
  destruct (Forall2_lookup_r _ _ _ _ _ Hmap Hn) as (d & Hd & Hpd).
  apply predict_date_Ok in Hpd as (l & Hl & ->). simpl.
  pose proof (map_date_length_pos _ _ _ _ Hdefault Hprep _ _ Hl) as Hpos.
  exists ctx, l. split; [done|]. split; [by eapply list_elem_of_lookup_2|].
  split; [done|]. split; [done|]. split; [done|].
  apply map_date_Ok in Hl as (cs & idx & L & _ & _ & _ & ->). simpl in *.
  split; [done|]. by apply fold_day_range.
Qed.

Lemma cycle_day_folded_witness :
  let hr_dates := [ymd 2025 1 1; ymd 2025 1 25; ymd 2025 1 29; ymd 2025 2 2] in
  let menstrual_data := Some [plain_summary (ymd 2025 1 1) 5] in
  let p := {| user_id := "u"; date := ymd 2025 1 29; start_date := ymd 2025 1 1;
              predicted_phase := Menstrual; cycle_day := 1 |} in
  ∃ predictions,
    predict_menstrual_phases "u" hr_dates menstrual_data 28
      = Returned None predictions ∧
    p ∈ predictions ∧
    ∃ ctx l,
      prepare hr_dates menstrual_data 28 = inr ctx ∧
      date p ∈ hr_dates ∧
      map_date ctx hr_dates (date p) = Ok l ∧
      start_date p = l_cycle_start l ∧
      0 < l_current_cycle_length l ∧
      cycle_day p
        = fold_day (date p - start_date p + 1) (l_current_cycle_length l) ∧
      1 ≤ cycle_day p ≤ l_current_cycle_length l.
Proof.
  intros hr_dates menstrual_data p.
  set (predictions :=
         [ {| user_id := "u"; date := ymd 2025 1 1; start_date := ymd 2025 1 1;
              predicted_phase := Menstrual; cycle_day := 1 |};
           {| user_id := "u"; date := ymd 2025 1 25; start_date := ymd 2025 1 1;
              predicted_phase := Luteal; cycle_day := 25 |};
           p;
           {| user_id := "u"; date := ymd 2025 2 2; start_date := ymd 2025 1 1;
              predicted_phase := Menstrual; cycle_day := 5 |} ]).
  assert (predict_menstrual_phases "u" hr_dates menstrual_data 28
          = Returned None predictions) as Hrun by (vm_compute; reflexivity).
  assert (p ∈ predictions) as Hin
    by apply list_elem_of_further, list_elem_of_further, list_elem_of_here.
  exists predictions. split; [exact Hrun|]. split; [exact Hin|].
  apply (cycle_day_folded "u" hr_dates menstrual_data 28 None predictions p);
    [lia | exact Hrun | exact Hin].
Defined.

Lemma prepare_no_start_in_range hr_dates cycle_summaries default_cycle_length :
  hr_dates ≠ [] →
  Exists valid_summary cycle_summaries →
  (∀ d s, d ∈ hr_dates → s ∈ normalized_history cycle_summaries → d < s) →
  prepare hr_dates (Some cycle_summaries) default_cycle_length
    = inl NoCycleStartInRange.
Proof.
  intros Hdates Hvalid Hall.
  pose proof (parse_cycle_starts_nonempty _ Hvalid) as Hstarts.
  unfold prepare. unfold normalized_history in Hall.
  destruct hr_dates as [|d0 dates]; [done|].
  destruct cycle_summaries as [|c cs]; [by apply Exists_nil in Hvalid|].
  destruct (cycle_starts (parse_cycle_summaries (c :: cs))) as [|s0 ss]; [done|].
  destruct (cycle_start_indices_of (filter_cycle_starts (s0 :: ss)) (d0 :: dates))
    as [|i0 csi] eqn:Hcsi; [done|]. exfalso.
  assert (i0 ∈ cycle_start_indices_of (filter_cycle_starts (s0 :: ss)) (d0 :: dates))
    as Hin by (rewrite Hcsi; apply list_elem_of_here).
  apply list_elem_of_omap in Hin as (s & Hs & Hi).
  unfold first_index_ge in Hi. apply fmap_Some in Hi as ([i d] & Hfind & _).
  apply list_find_Some in Hfind as (Hd & Hle & _).
  apply list_elem_of_lookup_2 in Hd. specialize (Hall d s Hd Hs). lia.
Qed.

(** C4 (as amended).  In a batch with a target date on or after some
    recorded start, a date before the first recorded start is mapped to
    the synthetic cycle start
    [first − (floor((first − date) / estimated) + 1) * estimated] and its
    cycle day is counted from there, provided this start is still a
    [datetime] (line 180 raises [OverflowError] otherwise).  When every
    target date lies before every recorded start the run stops at line
    158 and maps no date.  With one record starting 2024-03-01 (estimated
    length 28) and the target dates 2024-02-10 and 2024-03-01,
    2024-02-10 gets the cycle start 2024-02-02 and cycle day 9. *)
Theorem backward_projection :
  (∀ hr_dates cycle_summaries default_cycle_length first date,
     0 < default_cycle_length →
     head (normalized_history cycle_summaries) = Some first →
     (∃ d s, d ∈ hr_dates ∧ s ∈ normalized_history cycle_summaries ∧ s ≤ d) →
     date < first →
     let estimated :=
       estimate_cycle_length (normalized_history cycle_summaries)
         default_cycle_length in
     let cycles_before := (first - date) / estimated + 1 in
     is_datetime first →
     is_datetime (first - cycles_before * estimated) →
     ∃ ctx l,
       prepare hr_dates (Some cycle_summaries) default_cycle_length = inr ctx ∧
       map_date ctx hr_dates date = Ok l ∧
       l_cycle_start l = first - cycles_before * estimated ∧
       l_cycle_day l = date - l_cycle_start l + 1) ∧
  (∀ user hr_dates cycle_summaries default_cycle_length,
     hr_dates ≠ [] →
     Exists valid_summary cycle_summaries →
     (∀ d s, d ∈ hr_dates → s ∈ normalized_history cycle_summaries → d < s) →
     predict_menstrual_phases user hr_dates (Some cycle_summaries)
       default_cycle_length
     = Returned (Some NoCycleStartInRange) []) ∧
  (ymd 2024 3 1 - ymd 2024 2 10) / 28 + 1 = 1 ∧
  ymd 2024 3 1 - 1 * 28 = ymd 2024 2 2 ∧
  (∀ user,
     predict_menstrual_phases user [ymd 2024 2 10; ymd 2024 3 1]
       (Some [plain_summary (ymd 2024 3 1) 5]) 28
     = Returned None
         [ {| user_id := user; date := ymd 2024 2 10; start_date := ymd 2024 2 2;
              predicted_phase := Follicular; cycle_day := 9 |};
           {| user_id := user; date := ymd 2024 3 1; start_date := ymd 2024 3 1;
              predicted_phase := Menstrual; cycle_day := 1 |} ]).
Proof.
  split; [|split; [|split; [done|split; [done|intros user; by vm_compute]]]].
  - intros hr_dates cs default_cycle_length first date
      Hdefault Hfirst (d & s & Hd & Hs & Hsd) Hlt estimated cycles_before Hdt Hdt'.
    destruct (prepare_defined hr_dates cs default_cycle_length) as [ctx Hprep].
    { intros ->. by apply elem_of_nil in Hd. }
    { destruct (first_index_ge_is_Some hr_dates s d Hd Hsd) as [i Hi].
      intros Hnil.
      assert (i ∈ cycle_start_indices_of (normalized_history cs) hr_dates) as Hin
        by (apply list_elem_of_omap; eauto).
      rewrite Hnil in Hin. by apply elem_of_nil in Hin. }
    destruct (prepare_inr _ _ _ _ Hprep) as (cs' & [= <-] & _ & Hstarts & Hest & _).
    rewrite Hstarts in Hest.
    destruct (map_date_projected hr_dates (Some cs) default_cycle_length ctx
                Hdefault Hprep first date) as (l & Hl & Hstart & Hday).
    { by rewrite Hstarts. }
    { done. }
    { done. }
    { by rewrite Hest. }
    exists ctx, l. split; [done|]. split; [done|].
    rewrite Hest in Hstart. done.
  - intros user hr_dates cs default_cycle_length Hdates Hvalid Hall.
    unfold predict_menstrual_phases.
    by rewrite (prepare_no_start_in_range _ _ _ Hdates Hvalid Hall).
Qed.

Lemma backward_projection_witness :
  let hr_dates := [ymd 2024 2 10; ymd 2024 3 1] in
  let cycle_summaries := [plain_summary (ymd 2024 3 1) 5] in
  ∃ ctx l,
    prepare hr_dates (Some cycle_summaries) 28 = inr ctx ∧
    map_date ctx hr_dates (ymd 2024 2 10) = Ok l ∧
    l_cycle_start l = ymd 2024 2 2 ∧
    l_cycle_day l = 9.
Proof.
  intros hr_dates cycle_summaries.
  assert (normalized_history cycle_summaries = [ymd 2024 3 1]) as Hhist
    by by vm_compute.
  assert (estimate_cycle_length (normalized_history cycle_summaries) 28 = 28)
    as Hest by by vm_compute.
  destruct (proj1 backward_projection hr_dates cycle_summaries 28
              (ymd 2024 3 1) (ymd 2024 2 10))
    as (ctx & l & Hprep & Hl & Hstart & Hday).
  - lia.
  - by rewrite Hhist.
  - exists (ymd 2024 3 1), (ymd 2024 3 1). rewrite Hhist.
    split; [apply list_elem_of_further, list_elem_of_here|].
    split; [apply list_elem_of_here|lia].
  - by vm_compute.
  - by vm_compute.
  - rewrite Hest. by vm_compute.
  - exists ctx, l. split; [done|]. split; [done|].
    rewrite Hest in Hstart. rewrite Hday, Hstart. by vm_compute.
Defined.

(** C4, counterexample: the instance as the claim gives it, one record
    starting 2024-03-01 and the target date 2024-02-10 alone.  No target
    date reaches the first start, the run stops with the message of line
    157, and 2024-02-10 gets neither a cycle start nor a cycle day. *)
Lemma projection_needs_a_later_date :
  let hr_dates := [ymd 2024 2 10] in
  let cycle_summaries := [plain_summary (ymd 2024 3 1) 5] in
  head (normalized_history cycle_summaries) = Some (ymd 2024 3 1) ∧
  estimate_cycle_length (normalized_history cycle_summaries) 28 = 28 ∧
  ymd 2024 2 10 < ymd 2024 3 1 ∧
  prepare hr_dates (Some cycle_summaries) 28 = inl NoCycleStartInRange ∧
  predict_menstrual_phases "u" hr_dates (Some cycle_summaries) 28
    = Returned (Some NoCycleStartInRange) [] ∧
  ¬ ∃ p predictions,
      predict_menstrual_phases "u" hr_dates (Some cycle_summaries) 28
        = Returned None predictions ∧
      p ∈ predictions ∧ date p = ymd 2024 2 10 ∧ cycle_day p = 9.
Proof.
  intros hr_dates cycle_summaries.
  split; [by vm_compute|]. split; [by vm_compute|]. split; [by vm_compute|].
  split; [by vm_compute|]. split; [by vm_compute|].
  intros (p & predictions & Hrun & _). by vm_compute in Hrun.
Qed.

(** C2 (as amended).  For a target date governed by a recorded start
    whose date index is not shared with an earlier recorded start, the
    mapper uses the day-gap from that start to the first target date on
    or after the next recorded start; this is the gap to the next
    recorded start when that start is itself one of the ascending target
    dates.  It uses the estimated length when there is no next recorded
    start or no target date on or after it. *)
Theorem recorded_cycle_length
    hr_dates menstrual_data default_cycle_length ctx p s date :
  0 < default_cycle_length →
  prepare hr_dates menstrual_data default_cycle_length = inr ctx →
  date ∈ hr_dates →
  ctx_cycle_starts ctx !! p = Some s →
  s ≤ date →
  (∀ s', ctx_cycle_starts ctx !! S p = Some s' → date < s') →
  (∀ k sk, (k < p)%nat → ctx_cycle_starts ctx !! k = Some sk →
           first_index_ge hr_dates sk ≠ first_index_ge hr_dates s) →
  ∃ l, map_date ctx hr_dates date = Ok l ∧
       l_cycle_start l = s ∧
       l_current_cycle_length l =
         match ctx_cycle_starts ctx !! S p ≫= first_date_ge hr_dates with
         | Some d => d - s
         | None => ctx_estimated_cycle_length ctx
         end ∧
       (∀ s', StronglySorted Z.le hr_dates →
              ctx_cycle_starts ctx !! S p = Some s' → s' ∈ hr_dates →
              l_current_cycle_length l = s' - s) ∧
       (ctx_cycle_starts ctx !! S p = None →
        l_current_cycle_length l = ctx_estimated_cycle_length ctx).
Proof.
  intros Hdefault Hprep Hin Hp Hle Hnext Hdistinct.
  destruct (map_date_recorded _ _ _ _ Hdefault Hprep p s date Hp Hle Hnext Hin
              Hdistinct) as (l & Hl & Hstart & Hlen).
  exists l. split; [done|]. split; [done|]. split; [done|]. split.
  - intros s' Hsorted Hs' Hs'in. rewrite Hlen, Hs'. simpl.
    by rewrite first_date_ge_sorted.
  - intros Hnone. by rewrite Hlen, Hnone.
Qed.

Lemma recorded_cycle_length_witness :
  let hr_dates := [ymd 2025 1 1; ymd 2025 1 31; ymd 2025 2 27] in
  let menstrual_data :=
    Some [plain_summary (ymd 2025 1 1) 5; plain_summary (ymd 2025 1 29) 5;
          plain_summary (ymd 2025 2 26) 5] in
  ∃ ctx l,
    prepare hr_dates menstrual_data 28 = inr ctx ∧
    ctx_cycle_starts ctx = [ymd 2025 1 1; ymd 2025 1 29; ymd 2025 2 26] ∧
    map_date ctx hr_dates (ymd 2025 1 31) = Ok l ∧
    l_cycle_start l = ymd 2025 1 29 ∧
    l_current_cycle_length l = ymd 2025 2 27 - ymd 2025 1 29.
Proof.
  intros hr_dates menstrual_data.
  destruct (prepare hr_dates menstrual_data 28) as [diag|ctx] eqn:Hprep;
    [by vm_compute in Hprep|].
  assert (ctx_cycle_starts ctx = [ymd 2025 1 1; ymd 2025 1 29; ymd 2025 2 26])
    as Hstarts.
  { vm_compute in Hprep. by simplify_eq. }
  destruct (recorded_cycle_length hr_dates menstrual_data 28 ctx 1
              (ymd 2025 1 29) (ymd 2025 1 31))
    as (l & Hl & Hstart & Hlen & _).
  - lia.
  - exact Hprep.
  - apply list_elem_of_further, list_elem_of_here.
  - by rewrite Hstarts.
  - by vm_compute.
  - rewrite Hstarts. intros s' [= <-]. by vm_compute.
  - rewrite Hstarts. intros k sk Hk Hsk.
    destruct k as [|k]; [|lia]. simpl in Hsk. injection Hsk as <-.
    by vm_compute.
  - exists ctx, l. split; [done|]. split; [done|]. split; [done|].
    split; [done|]. rewrite Hlen, Hstarts. by vm_compute.
Defined.

(** C2, counterexample: records start on 2025-01-01 and 2025-01-29 and
    the target dates are 2025-01-01 and 2025-01-31.  The cycle governing
    2025-01-01 has a next recorded start 28 days later, yet the length
    used is 30, the gap to the first target date on or after it. *)
Lemma cycle_length_not_gap_to_next_start :
  let hr_dates := [ymd 2025 1 1; ymd 2025 1 31] in
  let menstrual_data :=
    Some [plain_summary (ymd 2025 1 1) 5; plain_summary (ymd 2025 1 29) 5] in
  ∃ ctx l,
    prepare hr_dates menstrual_data 28 = inr ctx ∧
    ctx_cycle_starts ctx = [ymd 2025 1 1; ymd 2025 1 29] ∧
    map_date ctx hr_dates (ymd 2025 1 1) = Ok l ∧
    l_cycle_start l = ymd 2025 1 1 ∧
    ymd 2025 1 29 - l_cycle_start l = 28 ∧
    l_current_cycle_length l = 30 ∧
    l_current_cycle_length l ≠ ymd 2025 1 29 - l_cycle_start l.
Proof.
  intros hr_dates menstrual_data. eexists _, _.
  split; [vm_compute; reflexivity|]. split; [reflexivity|].
  split; [vm_compute; reflexivity|]. by vm_compute.
Qed.

(** * Early exits *)

(** C9 (as amended).  With no valid cycle record the function prints a
    diagnostic and returns normally with no prediction; which diagnostic
    depends on whether there are target dates and summaries at all.
    [calculate_current_phase] returns an error value. *)
Theorem no_valid_cycle_record user hr_dates cycle_summaries default_cycle_length :
  Forall (λ c, ¬ valid_summary c) cycle_summaries →
  predict_menstrual_phases user hr_dates (Some cycle_summaries) default_cycle_length
    = Returned
        (Some (match hr_dates, cycle_summaries with
               | [], _ => NoHRData
               | _, [] => NoCycleSummaries
               | _, _ => NoValidCycleStarts
               end)) [] ∧
  predict_menstrual_phases user hr_dates None default_cycle_length
    = Returned (Some (match hr_dates with [] => NoHRData | _ => NoMenstrualData end)) [] ∧
  ∀ current_date,
    calculate_current_phase cycle_summaries current_date
      = inl (match cycle_summaries with
             | [] => NoCycleSummariesFound
             | _ => NoValidCycleStartsFound
             end).
Proof.
  intros Hinvalid. apply parse_cycle_starts_empty in Hinvalid.
  unfold predict_menstrual_phases, prepare, calculate_current_phase.
  split; [|split].
  - destruct hr_dates; [done|]. destruct cycle_summaries; [done|].
    by rewrite Hinvalid.
  - by destruct hr_dates.
  - intros current_date. destruct cycle_summaries; [done|]. by rewrite Hinvalid.
Qed.

Lemma no_valid_cycle_record_witness :
  let cycle_summaries :=
    [ {| startDate := None; periodLength := Some 5;
         fertileWindowStart := None; lengthOfFertileWindow := None |};
      {| startDate := Some (ymd 2025 1 1); periodLength := None;
         fertileWindowStart := Some 10; lengthOfFertileWindow := Some 6 |} ] in
  Forall (λ c, ¬ valid_summary c) cycle_summaries ∧
  predict_menstrual_phases "u" [ymd 2025 1 1] (Some cycle_summaries) 28
    = Returned (Some NoValidCycleStarts) [].
Proof.
  intros cycle_summaries.
  assert (Forall (λ c, ¬ valid_summary c) cycle_summaries) as Hinvalid.
  { repeat constructor; intros [[? H1] [? H2]]; simpl in *; congruence. }
  split; [exact Hinvalid|].
  exact (proj1 (no_valid_cycle_record "u" [ymd 2025 1 1] cycle_summaries 28 Hinvalid)).
Defined.

(** C9, counterexample: with a single record that lacks its period
    length, the call ends like a successful one: it returns [None] to the
    caller and no exception is raised. *)
Lemma no_cycle_data_not_signalled :
  let invalid :=
    [ {| startDate := Some (ymd 2025 1 1); periodLength := None;
         fertileWindowStart := None; lengthOfFertileWindow := None |} ] in
  let valid := [plain_summary (ymd 2025 1 1) 5] in
  predict_menstrual_phases "u" [ymd 2025 1 1] (Some invalid) 28
    = Returned (Some NoValidCycleStarts) [] ∧
  (∀ e, predict_menstrual_phases "u" [ymd 2025 1 1] (Some invalid) 28 ≠ Raised e) ∧
  caller_view (predict_menstrual_phases "u" [ymd 2025 1 1] (Some invalid) 28)
    = caller_view (predict_menstrual_phases "u" [ymd 2025 1 1] (Some valid) 28).
Proof.
  intros invalid valid. split; [by vm_compute|]. split; [|by vm_compute].
  intros e. by vm_compute.
Qed.

(** * Fertile-window hints *)

Lemma parse_step_no_hint acc c :
  no_fertile_hint c → parse_step acc c = parse_step acc (strip_hint c).
Proof.
  unfold no_fertile_hint, parse_step. simpl. intros Hno.
  destruct (startDate c), (periodLength c); [|done..].
  destruct (fertileWindowStart c), (lengthOfFertileWindow c); [|done..].
  simpl in Hno |- *. by rewrite Hno.
Qed.

Lemma parse_step_fertile_windows acc c s :
  (startDate c = Some s → no_fertile_hint c) →
  fertile_windows (parse_step acc c) !! s = fertile_windows acc !! s.
Proof.
  unfold no_fertile_hint, parse_step. intros Hno.
  destruct (startDate c) as [start|]; [|done].
  destruct (periodLength c); [|done]. simpl.
  destruct (fertileWindowStart c) as [a|]; [|done].
  destruct (lengthOfFertileWindow c) as [b|]; [|done].
  destruct (decide (start = s)) as [->|Hne].
  - specialize (Hno eq_refl). simpl in Hno |- *. by rewrite Hno.
  - simpl. destruct (negb (a =? 0) && negb (b =? 0)); [|done].
    by rewrite lookup_insert_ne.
Qed.

Lemma foldl_parse_step_fertile_windows cs s : ∀ acc,
  Forall (λ c, startDate c = Some s → no_fertile_hint c) cs →
  fertile_windows (foldl parse_step acc cs) !! s = fertile_windows acc !! s.
Proof.
  induction cs as [|c cs IH]; intros acc Hall; simpl; [done|].
  inversion Hall; subst. rewrite IH by done. by apply parse_step_fertile_windows.
Qed.

(** C10 (as amended).  A summary whose [fertileWindowStart] or
    [lengthOfFertileWindow] is absent or 0 is parsed exactly as the same
    summary without these fields.  When every summary with a given start
    date is of this kind, no fertile window is stored for that start, and
    the segmenter uses the estimate: midpoint [cycle_length * 14 / 28]
    (truncated; the floor for a non-negative length) and duration 7. *)
Theorem zero_hint_is_no_hint :
  (∀ acc c, no_fertile_hint c → parse_step acc c = parse_step acc (strip_hint c)) ∧
  (∀ cycle_summaries s menstrual_duration cycle_length,
     Forall (λ c, startDate c = Some s → no_fertile_hint c) cycle_summaries →
     let parsed := parse_cycle_summaries cycle_summaries in
     fertile_windows parsed !! s = None ∧
     phase_ranges menstrual_duration cycle_length (fertile_windows parsed !! s)
       = phase_ranges menstrual_duration cycle_length None ∧
     ovulatory_duration
       (phase_ranges menstrual_duration cycle_length (fertile_windows parsed !! s))
       = 7 ∧
     (0 ≤ cycle_length →
      ovulatory_window menstrual_duration cycle_length
        (fertile_windows parsed !! s)
      = spec_ovulatory_estimate menstrual_duration cycle_length)).
Proof.
  split; [exact parse_step_no_hint|].
  intros cycle_summaries s md cl Hall parsed.
  assert (fertile_windows parsed !! s = None) as Hnone.
  { unfold parsed, parse_cycle_summaries.
    by rewrite foldl_parse_step_fertile_windows. }
  rewrite Hnone. split; [done|]. split; [done|]. split.
  - by destruct (phase_ranges_ends md cl None) as [? _].
  - intros Hcl. unfold ovulatory_window, spec_ovulatory_estimate.
    by rewrite Z.quot_div_nonneg by lia.
Qed.

Lemma zero_hint_is_no_hint_witness :
  let cycle_summaries :=
    [ {| startDate := Some (ymd 2025 1 1); periodLength := Some 5;
         fertileWindowStart := Some 0; lengthOfFertileWindow := Some 6 |};
      {| startDate := Some (ymd 2025 1 29); periodLength := Some 5;
         fertileWindowStart := Some 10; lengthOfFertileWindow := Some 6 |} ] in
  let parsed := parse_cycle_summaries cycle_summaries in
  fertile_windows parsed !! ymd 2025 1 1 = None ∧
  fertile_windows parsed !! ymd 2025 1 29 = Some (10, 6) ∧
  ovulatory_window 5 28 (fertile_windows parsed !! ymd 2025 1 1) = (11, 7).
Proof.
  intros cycle_summaries parsed.
  assert (Forall (λ c, startDate c = Some (ymd 2025 1 1) → no_fertile_hint c)
            cycle_summaries) as Hall.
  { constructor; [by intros _|]. constructor; [|constructor].
    simpl. intros H. by vm_compute in H. }
  destruct (proj2 zero_hint_is_no_hint cycle_summaries (ymd 2025 1 1) 5 28 Hall)
    as (Hnone & _ & _ & Hest).
  split; [exact Hnone|]. split; [by vm_compute|].
  fold parsed in Hest. rewrite Hest by lia. by vm_compute.
Defined.

(** C10, counterexample: two summaries share the start 2025-01-01; the
    first carries the hint (10, 6), the second a zero hint.  The window
    stored by the first stays in [fertile_windows], and the cycle of the
    second is segmented with it (ovulatory duration 6), not with the
    estimate. *)
Lemma zero_hint_record_segmented_with_hint :
  let hinted :=
    {| startDate := Some (ymd 2025 1 1); periodLength := Some 5;
       fertileWindowStart := Some 10; lengthOfFertileWindow := Some 6 |} in
  let zero :=
    {| startDate := Some (ymd 2025 1 1); periodLength := Some 5;
       fertileWindowStart := Some 0; lengthOfFertileWindow := Some 0 |} in
  let hr_dates := [ymd 2025 1 1] in
  no_fertile_hint zero ∧
  ∃ ctx l,
    prepare hr_dates (Some [hinted; zero]) 28 = inr ctx ∧
    map_date ctx hr_dates (ymd 2025 1 1) = Ok l ∧
    l_cycle_start l = ymd 2025 1 1 ∧
    l_ranges l = phase_ranges 5 28 (Some (10, 6)) ∧
    ovulatory_duration (l_ranges l) = 6 ∧
    l_ranges l ≠ phase_ranges 5 28 None.
Proof.
  intros hinted zero hr_dates. split; [done|]. eexists _, _.
  split; [vm_compute; reflexivity|]. split; [vm_compute; reflexivity|].
  by vm_compute.
Qed.

(** * Further properties of the segmenter and of the normalisation *)

(** X1. Within one cycle the phases follow the order Menstrual,
    Follicular, Ovulatory, Luteal: a later day (from day 1 on) never gets
    an earlier phase, whatever the period length, cycle length and
    hint. *)
Theorem phases_in_order menstrual_duration cycle_length fertile_window day1 day2 :
  1 ≤ day1 → day1 ≤ day2 →
  let r := phase_ranges menstrual_duration cycle_length fertile_window in
  phase_rank (classify day1 r) ≤ phase_rank (classify day2 r).
Proof.
  intros H1 H12 r.
  destruct (phase_ranges_ends menstrual_duration cycle_length fertile_window)
    as (_ & Hme & _ & Hfd & Hfe & _).
  fold r in Hme, Hfd, Hfe. unfold classify.
  repeat match goal with
         | |- context [?a <=? ?b] => destruct (Z.leb_spec a b)
         | |- context [?a <? ?b] => destruct (Z.ltb_spec a b)
         end; simpl; lia.
Qed.

Lemma phases_in_order_witness :
  let r := phase_ranges 5 28 None in
  classify 3 r = Menstrual ∧ classify 12 r = Ovulatory ∧
  phase_rank (classify 3 r) ≤ phase_rank (classify 12 r).
Proof.
  intros r. split; [done|]. split; [done|].
  apply (phases_in_order 5 28 None 3 12); lia.
Defined.

(** X2. The clamped luteal duration lies in [[10, 16]]; the days left
    after the ovulatory range are never more than it, hence at most 16,
    and they are exactly it whenever the follicular gap was not forced
    to one day. *)
Theorem luteal_range_bounded menstrual_duration cycle_length fertile_window :
  let r := phase_ranges menstrual_duration cycle_length fertile_window in
  10 ≤ luteal_duration r ≤ 16 ∧
  luteal_end r - ovulatory_end r ≤ luteal_duration r ∧
  (1 < follicular_duration r →
   luteal_end r - ovulatory_end r = luteal_duration r).
Proof.
  unfold phase_ranges, ovulatory_window.
  destruct fertile_window as [[fs fl]|].
  - match goal with
    | |- context [if ?a <? 1 then _ else _] => destruct (Z.ltb_spec a 1)
    end; simpl; lia.
  - generalize ((cycle_length * 14) ÷ 28). intros mid.
    destruct (Z.ltb_spec cycle_length (Z.max (menstrual_duration + 1) (mid - 3) + 7 - 1));
      match goal with
      | |- context [if ?a <? 1 then _ else _] => destruct (Z.ltb_spec a 1)
      end; simpl; lia.
Qed.

Lemma luteal_range_bounded_witness :
  let r := phase_ranges 5 40 None in
  1 < follicular_duration r ∧ luteal_duration r = 16 ∧
  luteal_end r - ovulatory_end r = luteal_duration r.
Proof.
  intros r. split; [done|]. split; [done|].
  apply (luteal_range_bounded 5 40 None). done.
Defined.

Lemma foldl_filter_step_kept rest : ∀ kept l,
  let out := foldl filter_step (kept ++ [l]) rest in
  last out = last (l :: rest) ∧
  out ⊆ kept ++ l :: rest ∧
  (length out ≤ length kept + 1 + length rest)%nat.
Proof.
  induction rest as [|c rest IH]; intros kept l; cbn [foldl].
  { rewrite last_snoc, length_app. simpl. split; [done|]. split; [done|lia]. }
  rewrite filter_step_snoc. destruct (min_cycle_length <=? c - l).
  - replace (kept ++ [l; c]) with ((kept ++ [l]) ++ [c]) by by rewrite <- app_assoc.
    destruct (IH (kept ++ [l]) c) as (Hlast & Hsub & Hlen).
    split; [by rewrite Hlast, last_cons_cons|].
    split.
    { by replace ((kept ++ [l]) ++ c :: rest) with (kept ++ l :: c :: rest) in Hsub
        by by rewrite <- app_assoc. }
    rewrite length_app in Hlen. simpl in *. lia.
  - destruct (IH kept c) as (Hlast & Hsub & Hlen).
    split; [by rewrite Hlast, last_cons_cons|].
    split; [|simpl in *; lia].
    intros x Hx. apply Hsub in Hx.
    apply elem_of_app in Hx as [Hx|Hx]; apply elem_of_app;
      [by left|right]. by apply list_elem_of_further.
Qed.

Lemma Sorted_le_last (l : list Z) m :
  Sorted Z.le l → last l = Some m → Forall (λ x, x ≤ m) l.
Proof.
  intros Hs Hlast. apply (Sorted_StronglySorted _) in Hs.
  apply Forall_lookup. intros i x Hi. rewrite last_lookup in Hlast.
  eapply (StronglySorted_lookup_le l i (pred (length l))); [done| |done..].
  apply lookup_lt_Some in Hi. lia.
Qed.

(** X3. Normalisation only drops starts: every kept start is one of the
    given starts and there are no more of them; the latest given start is
    always kept, as the last entry. *)
Theorem normalisation_keeps_latest starts :
  starts ≠ [] →
  filter_cycle_starts starts ⊆ starts ∧
  (length (filter_cycle_starts starts) ≤ length starts)%nat ∧
  ∃ latest,
    last (filter_cycle_starts starts) = Some latest ∧
    latest ∈ starts ∧ Forall (λ s, s ≤ latest) starts.
Proof.
  intros Hne. unfold filter_cycle_starts.
  pose proof (merge_sort_Permutation Z.le starts) as Hperm.
  pose proof (Sorted_merge_sort Z.le starts) as Hsorted.
  destruct (merge_sort Z.le starts) as [|first rest] eqn:Hms.
  { by apply Permutation_nil in Hperm. }
  destruct (foldl_filter_step_kept rest [] first) as (Hlast & Hsub & Hlen).
  simpl in Hlast, Hsub, Hlen.
  split; [by rewrite <- Hperm|].
  split; [rewrite <- Hperm; simpl; lia|].
  destruct (last (first :: rest)) as [latest|] eqn:Hl;
    [|by apply last_None in Hl].
  exists latest. split; [done|]. split.
  - rewrite <- Hperm. by eapply last_Some_elem_of.
  - rewrite <- Hperm. by apply Sorted_le_last.
Qed.

Lemma normalisation_keeps_latest_witness :
  let starts := [ymd 2024 2 5; ymd 2024 1 1; ymd 2024 1 10] in
  filter_cycle_starts starts ⊆ starts ∧
  (length (filter_cycle_starts starts) ≤ length starts)%nat ∧
  ∃ latest,
    last (filter_cycle_starts starts) = Some latest ∧
    latest ∈ starts ∧ Forall (λ s, s ≤ latest) starts.
Proof. intros starts. by apply (normalisation_keeps_latest starts). Defined.

Lemma foldl_filter_step_spaced_id rest : ∀ kept l,
  spaced (l :: rest) → foldl filter_step (kept ++ [l]) rest = kept ++ l :: rest.
Proof.
  induction rest as [|c rest IH]; intros kept l Hs; simpl; [done|].
  inversion Hs as [|? ? Hs' Hhd]; subst. inversion Hhd; subst.
  rewrite filter_step_snoc. destruct (Z.leb_spec min_cycle_length (c - l)); [|lia].
  replace (kept ++ [l; c]) with ((kept ++ [l]) ++ [c]) by by rewrite <- app_assoc.
  rewrite IH by done. by rewrite <- app_assoc.
Qed.

(** X4. A history whose consecutive starts are already at least 15 days
    apart is left as it is, so normalising twice changes nothing more. *)
Theorem normalisation_idempotent :
  (∀ starts, spaced starts → filter_cycle_starts starts = starts) ∧
  (∀ starts,
     filter_cycle_starts (filter_cycle_starts starts) = filter_cycle_starts starts).
Proof.
  assert (∀ starts, spaced starts → filter_cycle_starts starts = starts) as Hid.
  { intros starts Hs. unfold filter_cycle_starts.
    assert (merge_sort Z.le starts = starts) as ->.
    { apply (Sorted_unique Z.le); [apply (Sorted_merge_sort Z.le)| |
        apply merge_sort_Permutation].
      apply StronglySorted_Sorted. by apply spaced_sorted. }
    destruct starts as [|first rest]; [done|].
    by apply (foldl_filter_step_spaced_id rest [] first). }
  split; [exact Hid|]. intros starts. apply Hid, filter_cycle_starts_spaced.
Qed.

Lemma normalisation_idempotent_witness :
  let starts := [ymd 2024 1 10; ymd 2024 2 5; ymd 2024 3 4] in
  spaced starts ∧ filter_cycle_starts starts = starts.
Proof.
  intros starts.
  assert (spaced starts) as Hs.
  { unfold spaced, min_cycle_length.
    repeat (constructor; try by vm_compute). }
  split; [exact Hs|]. exact (proj1 normalisation_idempotent starts Hs).
Defined.

(** * Further properties of the parsing *)

Lemma filter_cycle_starts_subseteq starts : filter_cycle_starts starts ⊆ starts.
Proof.
  unfold filter_cycle_starts.
  pose proof (merge_sort_Permutation Z.le starts) as Hperm.
  destruct (merge_sort Z.le starts) as [|first rest]; [apply list_subseteq_nil|].
  destruct (foldl_filter_step_kept rest [] first) as (_ & Hsub & _).
  by rewrite <- Hperm.
Qed.

Lemma foldl_parse_step_period_lengths cs s : ∀ acc,
  period_lengths (foldl parse_step acc cs) !! s =
    match last (recorded_period_lengths cs s) with
    | Some period_length => Some period_length
    | None => period_lengths acc !! s
    end.
Proof.
  unfold recorded_period_lengths.
  induction cs as [|c cs IH]; intros acc; [done|].
  cbn [foldl]. rewrite IH. cbn [omap list_omap]. unfold parse_step.
  destruct (startDate c) as [start|]; [|done].
  destruct (periodLength c) as [pl|]; [|done]. simpl.
  destruct (decide (start = s)) as [->|Hne].
  - rewrite last_cons, lookup_insert_eq.
    by destruct (last (omap _ cs)).
  - by rewrite lookup_insert_ne.
Qed.

(** X5. The period length stored for a start date is that of the last
    valid summary with this start date; every start of the normalised
    history has one, so the default of 5 days is only ever used for a
    back-projected cycle start. *)
Theorem period_length_last_wins cycle_summaries :
  (∀ s, period_lengths (parse_cycle_summaries cycle_summaries) !! s
        = last (recorded_period_lengths cycle_summaries s)) ∧
  (∀ s, s ∈ normalized_history cycle_summaries →
        ∃ c, c ∈ cycle_summaries ∧ startDate c = Some s ∧
             periodLength c
             = period_lengths (parse_cycle_summaries cycle_summaries) !! s ∧
             is_Some (periodLength c)).
Proof.
  assert (∀ s, period_lengths (parse_cycle_summaries cycle_summaries) !! s
               = last (recorded_period_lengths cycle_summaries s)) as Hlast.
  { intros s. unfold parse_cycle_summaries.
    rewrite foldl_parse_step_period_lengths.
    by destruct (last (recorded_period_lengths cycle_summaries s)). }
  split; [exact Hlast|]. intros s Hs. rewrite Hlast.
  apply filter_cycle_starts_subseteq in Hs.
  unfold parse_cycle_summaries in Hs.
  rewrite foldl_parse_step_cycle_starts in Hs. simpl in Hs.
  apply list_elem_of_omap in Hs as (c0 & Hc0 & Hvalid0).
  destruct (last (recorded_period_lengths cycle_summaries s)) as [pl|] eqn:Hl.
  - apply last_Some_elem_of in Hl. unfold recorded_period_lengths in Hl.
    apply list_elem_of_omap in Hl as (c & Hc & Hpl).
    exists c. split; [done|].
    destruct (startDate c) as [s'|]; [|done].
    destruct (periodLength c) as [pl'|]; [|done].
    destruct (decide (s' = s)) as [->|]; [|done].
    simplify_eq. eauto.
  - apply last_None in Hl. exfalso.
    assert (∃ pl, pl ∈ recorded_period_lengths cycle_summaries s) as [pl Hpl].
    { destruct (startDate c0) as [s'|] eqn:Hs'; [|done].
      destruct (periodLength c0) as [pl|] eqn:Hpl; [|done]. simplify_eq.
      exists pl. apply list_elem_of_omap. exists c0. split; [done|].
      rewrite Hs', Hpl. by rewrite decide_True. }
    rewrite Hl in Hpl. by apply elem_of_nil in Hpl.
Qed.

Lemma period_length_last_wins_witness :
  let cycle_summaries :=
    [plain_summary (ymd 2025 1 1) 4; plain_summary (ymd 2025 1 29) 5;
     plain_summary (ymd 2025 1 1) 6] in
  ymd 2025 1 1 ∈ normalized_history cycle_summaries ∧
  period_lengths (parse_cycle_summaries cycle_summaries) !! ymd 2025 1 1 = Some 6 ∧
  ∃ c, c ∈ cycle_summaries ∧ startDate c = Some (ymd 2025 1 1) ∧
       periodLength c
       = period_lengths (parse_cycle_summaries cycle_summaries) !! ymd 2025 1 1 ∧
       is_Some (periodLength c).
Proof.
  intros cycle_summaries.
  assert (ymd 2025 1 1 ∈ normalized_history cycle_summaries) as Hin.
  { replace (normalized_history cycle_summaries)
      with [ymd 2025 1 1; ymd 2025 1 29] by by vm_compute.
    apply list_elem_of_here. }
  split; [exact Hin|]. split; [by vm_compute|].
  exact (proj2 (period_length_last_wins cycle_summaries) (ymd 2025 1 1) Hin).
Defined.

(** * Further properties of [predict_menstrual_phases] *)

Lemma mapM_Raise {A B} (f : A → result B) (l : list A) e :
  mapM f l = Raise e → ∃ a, a ∈ l ∧ f a = Raise e.
Proof.
  induction l as [|a l IH]; simpl; [done|].
  unfold mbind, result_bind.
  destruct (f a) as [b|e'] eqn:Hb.
  - destruct (mapM f l) as [bs|e'']; [done|].
    intros [= ->]. destruct IH as (a' & ? & ?); [done|].
    exists a'. split; [by apply list_elem_of_further|done].
  - intros [= ->]. exists a. split; [apply list_elem_of_here|done].
Qed.

Lemma predict_dates_fmap user ctx hr_dates dates ps :
  Forall2 (λ d p, predict_date user ctx hr_dates d = Ok p) dates ps →
  Forall (λ p, user_id p = user) ps ∧ date <$> ps = dates.
Proof.
  induction 1 as [|d p dates ps Hp _ [IH1 IH2]]; [done|].
  apply predict_date_Ok in Hp as (l & _ & ->).
  split; [by constructor|]. simpl. by f_equal.
Qed.

(** X6. A run stores all or nothing: either it prints a diagnostic and
    stores no prediction, or it stores exactly one prediction per target
    date, in the order of the dates, each under the given user. *)
Theorem predictions_follow_dates
    user hr_dates menstrual_data default_cycle_length printed predictions :
  predict_menstrual_phases user hr_dates menstrual_data default_cycle_length
    = Returned printed predictions →
  Forall (λ p, user_id p = user) predictions ∧
  match printed with
  | Some _ => predictions = []
  | None => date <$> predictions = hr_dates ∧ hr_dates ≠ []
  end.
Proof.
  unfold predict_menstrual_phases.
  destruct (prepare hr_dates menstrual_data default_cycle_length)
    as [diag|ctx] eqn:Hprep.
  { intros [= <- <-]. by split. }
  destruct (mapM (predict_date user ctx hr_dates) hr_dates) as [ps|] eqn:Hmap;
    [|done].
  intros [= <- <-]. apply mapM_Ok_Forall2 in Hmap.
  assert (hr_dates ≠ []) as Hne.
  { intros ->. by vm_compute in Hprep. }
  destruct (predict_dates_fmap _ _ _ _ _ Hmap) as [? ?]. done.
Qed.

Lemma predictions_follow_dates_witness :
  let hr_dates := [ymd 2025 1 1; ymd 2025 1 25] in
  ∃ predictions,
    predict_menstrual_phases "u" hr_dates
      (Some [plain_summary (ymd 2025 1 1) 5]) 28 = Returned None predictions ∧
    Forall (λ p, user_id p = "u") predictions ∧
    date <$> predictions = hr_dates ∧ hr_dates ≠ [].
Proof.
  intros hr_dates.
  destruct (predict_menstrual_phases "u" hr_dates
              (Some [plain_summary (ymd 2025 1 1) 5]) 28)
    as [printed predictions|e] eqn:Hrun; [|by vm_compute in Hrun].
  assert (printed = None) as -> by (vm_compute in Hrun; by simplify_eq).
  exists predictions. split; [done|].
  exact (predictions_follow_dates "u" hr_dates _ 28 None predictions Hrun).
Defined.

Lemma StronglySorted_lookup_lt (l : list Z) i j a b :
  StronglySorted Z.lt l → (i < j)%nat → l !! i = Some a → l !! j = Some b → a < b.
Proof.
  intros Hs. revert i j. induction Hs as [|x l Hs IH Hall]; intros i j Hij Hi Hj.
  { by rewrite lookup_nil in Hi. }
  destruct i as [|i], j as [|j]; simpl in *; try lia.
  - simplify_eq. eapply Forall_lookup_1 in Hall; [|done]. done.
  - eapply IH; [|done..]. lia.
Qed.

Lemma current_cycle_length_defined dates starts cycle_start idx est :
  StronglySorted Z.le starts →
  cycle_start_indices_of starts dates ≠ [] →
  ∃ L, current_cycle_length_of (cycle_start_indices_of starts dates) dates
         cycle_start idx est = Ok L.
Proof.
  intros Hsorted Hne. rewrite current_cycle_length_of_unfold.
  assert (∀ k i', cycle_start_indices_of starts dates !! k = Some i' →
                  is_Some (dates !! i')) as Hany.
  { intros k i' (s & d & _ & _ & Hd & _)%indices_lookup_Some; [eauto|done]. }
  destruct (list_find (λ i, i = idx) (cycle_start_indices_of starts dates))
    as [[q x]|].
  - destruct (cycle_start_indices_of starts dates !! S q) as [i'|] eqn:Hi';
      [|by eexists].
    destruct (Hany _ _ Hi') as [d ->]. by eexists.
  - destruct (last (cycle_start_indices_of starts dates)) as [i'|] eqn:Hlast.
    + rewrite last_lookup in Hlast. destruct (Hany _ _ Hlast) as [d ->]. by eexists.
    + by apply last_None in Hlast.
Qed.

Lemma map_date_Raise hr_dates menstrual_data default_cycle_length ctx date e :
  prepare hr_dates menstrual_data default_cycle_length = inr ctx →
  map_date ctx hr_dates date = Raise e → e ≠ IndexError.
Proof.
  intros Hprep. unfold map_date, mbind, result_bind.
  destruct (locate_cycle ctx date) as [[cycle_start idx]|e'] eqn:Hloc.
  - rewrite (prepared_indices _ _ _ _ Hprep).
    destruct (current_cycle_length_defined hr_dates (ctx_cycle_starts ctx)
                cycle_start idx (ctx_estimated_cycle_length ctx)) as [L ->].
    { exact (prepared_sorted _ _ _ _ Hprep). }
    { rewrite <- (prepared_indices _ _ _ _ Hprep).
      by destruct (prepare_inr _ _ _ _ Hprep) as (? & _ & _ & _ & _ & _ & ?). }
    unfold cycle_day_within_phase, pymod, mbind, result_bind.
    destruct (L =? 0); [by intros [= <-]|done].
  - intros [= <-]. unfold locate_cycle in Hloc.
    destruct (find_cycle_start _ date None); [done|].
    destruct (prepared_zip_head _ _ _ _ Hprep) as (i0 & first & z & Hfirst & _).
    rewrite getitem_zero, Hfirst in Hloc.
    unfold mbind, result_bind, floordiv in Hloc.
    destruct (ctx_estimated_cycle_length ctx =? 0); [by simplify_eq|].
    unfold minus_days in Hloc.
    repeat match type of Hloc with
           | context [if ?b then _ else _] => destruct b
           end; by simplify_eq.
Qed.

(** X7. The list accesses of the loop ([cycle_starts[0]],
    [cycle_start_indices[next_cycle_idx]], [dates[...]]) are always in
    range: no run ends with [IndexError], and an exception of the loop is
    raised while mapping one of the target dates. *)
Theorem index_error_never_raised
    user hr_dates menstrual_data default_cycle_length e :
  predict_menstrual_phases user hr_dates menstrual_data default_cycle_length
    = Raised e →
  e ≠ IndexError ∧
  ∃ ctx date,
    prepare hr_dates menstrual_data default_cycle_length = inr ctx ∧
    date ∈ hr_dates ∧
    map_date ctx hr_dates date = Raise e.
Proof.
  unfold predict_menstrual_phases.
  destruct (prepare hr_dates menstrual_data default_cycle_length)
    as [diag|ctx] eqn:Hprep; [done|].
  destruct (mapM (predict_date user ctx hr_dates) hr_dates) as [ps|e'] eqn:Hmap;
    [done|].
  intros [= ->]. apply mapM_Raise in Hmap as (date & Hin & Hraise).
  unfold predict_date, mbind, result_bind in Hraise.
  destruct (map_date ctx hr_dates date) as [l|e'] eqn:Hmd; [done|].
  simplify_eq.
  split; [exact (map_date_Raise _ _ _ _ _ _ Hprep Hmd)|]. by exists ctx, date.
Qed.

Lemma first_index_ge_head d0 rest s :
  s ≤ d0 → first_index_ge (d0 :: rest) s = Some 0%nat.
Proof.
  intros Hle. unfold first_index_ge. simpl. by rewrite decide_True.
Qed.

(** X8. When the first target date is itself a recorded start other than
    the earliest one, the run ends with [ZeroDivisionError] and stores
    nothing: the earlier starts share date index 0 with it, the cycle
    length read for it is 0, and the fold by [%] raises. *)
Theorem first_date_on_later_start_raises
    user first_date later_dates cycle_summaries default_cycle_length p :
  normalized_history cycle_summaries !! p = Some first_date →
  (0 < p)%nat →
  predict_menstrual_phases user (first_date :: later_dates)
    (Some cycle_summaries) default_cycle_length
  = Raised ZeroDivisionError.
Proof.
  intros Hp Hpos. set (hr_dates := first_date :: later_dates).
  set (starts := normalized_history cycle_summaries) in *.
  assert (spaced starts) as Hspaced by apply filter_cycle_starts_spaced.
  pose proof (spaced_sorted _ Hspaced) as Hsorted.
  pose proof (spaced_increasing _ Hspaced) as Hincr.
  assert (∀ k sk, (k ≤ p)%nat → starts !! k = Some sk →
                  cycle_start_indices_of starts hr_dates !! k = Some 0%nat) as Hzero.
  { intros k sk Hk Hsk. rewrite cycle_start_indices_lookup, Hsk by done. simpl.
    apply first_index_ge_head. by eapply (StronglySorted_lookup_le starts k p). }
  destruct (lookup_lt_is_Some_2 starts 0) as [s0 Hs0];
    [apply lookup_lt_Some in Hp; lia|].
  destruct (lookup_lt_is_Some_2 starts 1) as [s1 Hs1];
    [apply lookup_lt_Some in Hp; lia|].
  destruct (prepare_defined hr_dates cycle_summaries default_cycle_length)
    as [ctx Hprep]; [done| |].
  { fold starts. intros Hnil. specialize (Hzero 0%nat s0). rewrite Hnil in Hzero.
    discriminate Hzero; [lia|done]. }
  assert (ctx_cycle_starts ctx = starts) as Hstarts
    by by destruct (prepare_inr _ _ _ _ Hprep) as (? & [= <-] & _ & ? & _).
  destruct (locate_cycle_at _ _ _ _ Hprep p first_date first_date)
    as (i & Hi & Hloc).
  { by rewrite Hstarts. }
  { lia. }
  { rewrite Hstarts. intros s' Hs'.
    eapply (StronglySorted_lookup_lt starts p (S p)); [done|lia|done..]. }
  { apply list_elem_of_here. }
  unfold hr_dates in Hi.
  rewrite (first_index_ge_head first_date later_dates first_date) in Hi by lia.
  injection Hi as <-.
  destruct (current_cycle_length_recorded hr_dates starts Hsorted p first_date 0%nat
              (ctx_estimated_cycle_length ctx) Hp)
    as (q & _ & _ & Hmin & Hlen & _).
  { apply first_index_ge_head. lia. }
  assert (q = 0%nat) as ->.
  { destruct q as [|q]; [done|]. destruct (Hmin 0%nat); [lia|].
    apply (Hzero 0%nat s0); [lia|done]. }
  rewrite (Hzero 1%nat s1) in Hlen by (done || lia). simpl in Hlen.
  replace (first_date - first_date) with 0 in Hlen by lia.
  assert (map_date ctx hr_dates first_date = Raise ZeroDivisionError) as Hraise.
  { unfold map_date. rewrite Hloc. unfold mbind at 1, result_bind at 1.
    rewrite (prepared_indices _ _ _ _ Hprep), Hstarts, Hlen. done. }
  unfold predict_menstrual_phases. rewrite Hprep.
  assert (mapM (predict_date user ctx hr_dates) hr_dates
          = Raise ZeroDivisionError) as ->; [|done].
  assert (predict_date user ctx hr_dates first_date = Raise ZeroDivisionError)
    as Hpd by (unfold predict_date; by rewrite Hraise).
  unfold hr_dates at 2. cbn [mapM]. by rewrite Hpd.
Qed.

Lemma first_date_on_later_start_raises_witness :
  let cycle_summaries :=
    [plain_summary (ymd 2025 1 1) 5; plain_summary (ymd 2025 1 29) 5] in
  normalized_history cycle_summaries !! 1%nat = Some (ymd 2025 1 29) ∧
  predict_menstrual_phases "u" [ymd 2025 1 29; ymd 2025 1 30]
    (Some cycle_summaries) 28
  = Raised ZeroDivisionError.
Proof.
  intros cycle_summaries.
  assert (normalized_history cycle_summaries !! 1%nat = Some (ymd 2025 1 29))
    as Hp by by vm_compute.
  split; [exact Hp|].
  apply (first_date_on_later_start_raises "u" (ymd 2025 1 29) [ymd 2025 1 30]
           cycle_summaries 28 1); [exact Hp|lia].
Defined.

Lemma index_error_never_raised_witness :
  let hr_dates := [ymd 2025 1 29; ymd 2025 1 30] in
  let menstrual_data :=
    Some [plain_summary (ymd 2025 1 1) 5; plain_summary (ymd 2025 1 29) 5] in
  predict_menstrual_phases "u" hr_dates menstrual_data 28
    = Raised ZeroDivisionError ∧
  ZeroDivisionError ≠ IndexError ∧
  ∃ ctx date,
    prepare hr_dates menstrual_data 28 = inr ctx ∧
    date ∈ hr_dates ∧
    map_date ctx hr_dates date = Raise ZeroDivisionError.
Proof.
  intros hr_dates menstrual_data.
  assert (predict_menstrual_phases "u" hr_dates menstrual_data 28
          = Raised ZeroDivisionError) as Hrun by by vm_compute.
  split; [exact Hrun|].
  exact (index_error_never_raised "u" hr_dates menstrual_data 28 _ Hrun).
Defined.

(** X9. With target dates and at least one valid record, the run stops
    with the "no cycle starts match the date range" message exactly when
    every target date lies before every start of the normalised history;
    back-projection is then never attempted. *)
Theorem no_start_in_range user hr_dates cycle_summaries default_cycle_length :
  hr_dates ≠ [] →
  Exists valid_summary cycle_summaries →
  predict_menstrual_phases user hr_dates (Some cycle_summaries) default_cycle_length
    = Returned (Some NoCycleStartInRange) []
  ↔ ∀ d s, d ∈ hr_dates → s ∈ normalized_history cycle_summaries → d < s.
Proof.
  intros Hdates Hvalid.
  pose proof (parse_cycle_starts_nonempty _ Hvalid) as Hstarts.
  unfold predict_menstrual_phases, prepare, normalized_history.
  destruct hr_dates as [|d0 dates]; [done|].
  destruct cycle_summaries as [|c cs]; [by apply Exists_nil in Hvalid|].
  destruct (cycle_starts (parse_cycle_summaries (c :: cs))) as [|s0 ss]; [done|].
  set (starts := filter_cycle_starts (s0 :: ss)).
  set (hr_dates := d0 :: dates).
  destruct (cycle_start_indices_of starts hr_dates) as [|i0 csi] eqn:Hcsi.
  - split; [intros _|done]. intros d s Hd Hs.
    destruct (first_index_ge hr_dates s) as [i|] eqn:Hi.
    + assert (i ∈ cycle_start_indices_of starts hr_dates) as Hin
        by (apply list_elem_of_omap; eauto).
      rewrite Hcsi in Hin. by apply elem_of_nil in Hin.
    + unfold first_index_ge in Hi. apply fmap_None, list_find_None in Hi.
      rewrite Forall_forall in Hi. specialize (Hi d Hd). simpl in Hi. lia.
  - split.
    + by destruct (mapM _ hr_dates).
    + intros Hall. exfalso.
      assert (i0 ∈ cycle_start_indices_of starts hr_dates) as Hin
        by (rewrite Hcsi; apply list_elem_of_here).
      apply list_elem_of_omap in Hin as (s & Hs & Hi).
      unfold first_index_ge in Hi.
      apply fmap_Some in Hi as ([i d] & Hfind & _).
      apply list_find_Some in Hfind as (Hd & Hle & _).
      apply list_elem_of_lookup_2 in Hd. specialize (Hall d s Hd Hs). lia.
Qed.

Lemma no_start_in_range_witness :
  let hr_dates := [ymd 2024 2 10; ymd 2024 2 20] in
  let cycle_summaries := [plain_summary (ymd 2024 3 1) 5] in
  (∀ d s, d ∈ hr_dates → s ∈ normalized_history cycle_summaries → d < s) ∧
  predict_menstrual_phases "u" hr_dates (Some cycle_summaries) 28
    = Returned (Some NoCycleStartInRange) [].
Proof.
  intros hr_dates cycle_summaries.
  assert (predict_menstrual_phases "u" hr_dates (Some cycle_summaries) 28
          = Returned (Some NoCycleStartInRange) []) as Hrun by by vm_compute.
  split; [|exact Hrun].
  apply (no_start_in_range "u" hr_dates cycle_summaries 28); [done| |exact Hrun].
  apply Exists_cons_hd. split; simpl; eauto.
Defined.

(** * Properties of [calculate_current_phase] *)

Lemma list_find_reverse_latest (starts : list Z) current_date i s :
  StronglySorted Z.le starts →
  list_find (λ start_date, start_date ≤ current_date) (reverse starts) = Some (i, s) →
  s ∈ starts ∧ s ≤ current_date ∧
  ∀ s', s' ∈ starts → s' ≤ current_date → s' ≤ s.
Proof.
  intros Hsorted (Hi & Hle & Hmin)%list_find_Some.
  split; [by eapply elem_of_reverse, list_elem_of_lookup_2|]. split; [done|].
  intros s' Hs' Hle'. apply elem_of_reverse, list_elem_of_lookup in Hs' as [j Hj].
  destruct (decide (j < i)%nat) as [Hlt|Hge].
  { by destruct (Hmin j s' Hj Hlt). }
  apply reverse_lookup_Some in Hi as [Hi Hil].
  apply reverse_lookup_Some in Hj as [Hj Hjl].
  eapply (StronglySorted_lookup_le starts (length starts - S j) (length starts - S i));
    [done|lia|done..].
Qed.

(** X10. When [calculate_current_phase] returns a phase, the reported
    start is the latest start of the normalised history on or before the
    date, the estimated cycle length lies in [[15, 45]], and the cycle
    day is the folded offset, between 1 and the estimated length. *)
Theorem current_phase_invariants cycle_summaries current_date r :
  calculate_current_phase cycle_summaries current_date = inr r →
  cp_date r = current_date ∧
  cp_start_date r ∈ normalized_history cycle_summaries ∧
  cp_start_date r ≤ current_date ∧
  (∀ s, s ∈ normalized_history cycle_summaries → s ≤ current_date →
        s ≤ cp_start_date r) ∧
  cp_estimated_cycle_length r
    = estimate_cycle_length (normalized_history cycle_summaries) 28 ∧
  15 ≤ cp_estimated_cycle_length r ≤ 45 ∧
  cp_cycle_day r
    = fold_day (current_date - cp_start_date r + 1)
        (cp_estimated_cycle_length r) ∧
  1 ≤ cp_cycle_day r ≤ cp_estimated_cycle_length r.
Proof.
  assert (∀ starts, 15 ≤ estimate_cycle_length starts 28 ≤ 45) as Hest.
  { intros starts. destruct (estimate_cycle_length_range starts 28); lia. }
  unfold calculate_current_phase, normalized_history.
  destruct cycle_summaries as [|c cs]; [done|].
  destruct (cycle_starts (parse_cycle_summaries (c :: cs))) as [|s0 ss]; [done|].
  set (starts := filter_cycle_starts (s0 :: ss)).
  destruct (list_find _ (reverse starts)) as [[i s]|] eqn:Hfind; [|done].
  specialize (Hest starts).
  assert (estimate_cycle_length starts 28 ≠ 0) as Hne by lia.
  rewrite (proj2 (cycle_day_within_phase_Ok _ _ _) (conj Hne eq_refl)).
  intros [= <-]. simpl.
  apply list_find_reverse_latest in Hfind as (Hin & Hle & Hmax);
    [|apply spaced_sorted, filter_cycle_starts_spaced].
  split_and!; try done; try lia; by apply fold_day_range; lia.
Qed.

Lemma current_phase_invariants_witness :
  let cycle_summaries :=
    [plain_summary (ymd 2025 1 1) 5; plain_summary (ymd 2025 1 30) 5] in
  ∃ r,
    calculate_current_phase cycle_summaries (ymd 2025 3 1) = inr r ∧
    cp_start_date r = ymd 2025 1 30 ∧
    cp_estimated_cycle_length r = 29 ∧
    cp_cycle_day r = 2 ∧
    1 ≤ cp_cycle_day r ≤ cp_estimated_cycle_length r.
Proof.
  intros cycle_summaries.
  destruct (calculate_current_phase cycle_summaries (ymd 2025 3 1))
    as [err|r] eqn:Hr; [by vm_compute in Hr|].
  destruct (current_phase_invariants cycle_summaries (ymd 2025 3 1) r Hr)
    as (_ & _ & _ & _ & _ & _ & _ & Hrange).
  exists r. split; [done|].
  vm_compute in Hr. injection Hr as <-. done.
Defined.

(** X11. With at least one valid record, [calculate_current_phase]
    answers "no cycle start found before the current date" exactly when
    the date lies before every start of the normalised history; unlike
    [predict_menstrual_phases] it does not project backward. *)
Theorem current_phase_before_history cycle_summaries current_date :
  Exists valid_summary cycle_summaries →
  calculate_current_phase cycle_summaries current_date = inl NoCycleStartBeforeDate
  ↔ ∀ s, s ∈ normalized_history cycle_summaries → current_date < s.
Proof.
  intros Hvalid.
  pose proof (parse_cycle_starts_nonempty _ Hvalid) as Hstarts.
  unfold calculate_current_phase, normalized_history.
  destruct cycle_summaries as [|c cs]; [by apply Exists_nil in Hvalid|].
  destruct (cycle_starts (parse_cycle_summaries (c :: cs))) as [|s0 ss]; [done|].
  set (starts := filter_cycle_starts (s0 :: ss)).
  destruct (list_find _ (reverse starts)) as [[i s]|] eqn:Hfind.
  - split.
    + by destruct (cycle_day_within_phase _ _).
    + intros Hall. apply list_find_Some in Hfind as (Hi & Hle & _).
      apply list_elem_of_lookup_2 in Hi. rewrite elem_of_reverse in Hi.
      specialize (Hall s Hi). lia.
  - split; [intros _|done]. intros s Hs.
    apply list_find_None in Hfind. rewrite Forall_forall in Hfind.
    specialize (Hfind s (elem_of_reverse_2 _ _ Hs)). simpl in Hfind. lia.
Qed.

Lemma current_phase_before_history_witness :
  let cycle_summaries := [plain_summary (ymd 2024 3 1) 5] in
  (∀ s, s ∈ normalized_history cycle_summaries → ymd 2024 2 10 < s) ∧
  calculate_current_phase cycle_summaries (ymd 2024 2 10)
    = inl NoCycleStartBeforeDate.
Proof.
  intros cycle_summaries.
  assert (calculate_current_phase cycle_summaries (ymd 2024 2 10)
          = inl NoCycleStartBeforeDate) as Hr by by vm_compute.
  split; [|exact Hr].
  apply (current_phase_before_history cycle_summaries (ymd 2024 2 10));
    [|exact Hr].
  apply Exists_cons_hd. split; simpl; eauto.
Defined.

(** * How the two functions relate *)

(** X12. For a target date governed by the latest recorded start, whose
    date index no earlier start shares, [predict_menstrual_phases] (with
    its default length 28) and [calculate_current_phase] agree on the
    cycle start, the cycle length used, the cycle day and the phase. *)
Theorem latest_cycle_agreement hr_dates cycle_summaries ctx date s :
  prepare hr_dates (Some cycle_summaries) 28 = inr ctx →
  date ∈ hr_dates →
  last (normalized_history cycle_summaries) = Some s →
  s ≤ date →
  (∀ sk, sk ∈ normalized_history cycle_summaries → sk < s →
         first_index_ge hr_dates sk ≠ first_index_ge hr_dates s) →
  ∃ l r,
    map_date ctx hr_dates date = Ok l ∧
    calculate_current_phase cycle_summaries date = inr r ∧
    cp_start_date r = l_cycle_start l ∧
    cp_estimated_cycle_length r = l_current_cycle_length l ∧
    cp_cycle_day r = l_cycle_day_within_phase l ∧
    cp_predicted_phase r = l_predicted_phase l.
Proof.
  intros Hprep Hin Hlast Hle Hdistinct.
  destruct (prepare_inr _ _ _ _ Hprep)
    as (cs' & [= <-] & Hparsed & Hstarts & Hest & _).
  pose proof (prepare_sorted _ _ _ _ Hprep) as [Hspaced Hsorted].
  rewrite Hstarts in Hspaced, Hsorted, Hest.
  set (starts := normalized_history cycle_summaries) in *.
  set (p := pred (length starts)).
  assert (starts !! p = Some s) as Hp by (unfold p; by rewrite <- last_lookup).
  assert (starts !! S p = None) as Hnext.
  { apply lookup_ge_None. apply lookup_lt_Some in Hp. unfold p in *. lia. }
  destruct (map_date_recorded hr_dates (Some cycle_summaries) 28 ctx
              ltac:(lia) Hprep p s date) as (l & Hl & Hstart & Hlen).
  { by rewrite Hstarts. }
  { done. }
  { rewrite Hstarts. fold starts. by rewrite Hnext. }
  { done. }
  { rewrite Hstarts. fold starts. intros k sk Hk Hsk.
    apply Hdistinct; [by eapply list_elem_of_lookup_2|].
    eapply (StronglySorted_lookup_lt starts k p);
      [by apply spaced_increasing|done..]. }
  rewrite Hstarts in Hlen. fold starts in Hlen. rewrite Hnext in Hlen.
  simpl in Hlen. rewrite Hest in Hlen.
  pose proof Hl as (cs0 & idx & L & _ & _ & HL & Hrec)%map_date_Ok.
  rewrite Hrec in Hstart, Hlen. simpl in Hstart, Hlen. subst cs0 L.
  exists l.
  assert (calculate_current_phase cycle_summaries date =
          inr {| cp_date := date;
                 cp_start_date := s;
                 cp_predicted_phase := l_predicted_phase l;
                 cp_cycle_day := l_cycle_day_within_phase l;
                 cp_estimated_cycle_length := estimate_cycle_length starts 28 |})
    as Hcalc.
  { unfold calculate_current_phase. unfold starts, normalized_history in *.
    destruct cycle_summaries as [|c cs]; [by vm_compute in Hlast|].
    destruct (cycle_starts (parse_cycle_summaries (c :: cs))) as [|s0 ss];
      [by vm_compute in Hlast|].
    apply last_Some in Hlast as [front Hfront]. rewrite Hfront in *.
    rewrite reverse_snoc. simpl. rewrite decide_True by done. simpl.
    rewrite (proj2 (cycle_day_within_phase_Ok _ _ _) (conj HL eq_refl)).
    rewrite Hrec. simpl. by rewrite Hparsed. }
  eexists. split; [done|]. split; [exact Hcalc|]. rewrite Hrec. done.
Qed.

Lemma latest_cycle_agreement_witness :
  let hr_dates := [ymd 2025 1 1; ymd 2025 1 31; ymd 2025 2 27] in
  let cycle_summaries :=
    [plain_summary (ymd 2025 1 1) 5; plain_summary (ymd 2025 1 29) 4] in
  ∃ ctx l r,
    prepare hr_dates (Some cycle_summaries) 28 = inr ctx ∧
    map_date ctx hr_dates (ymd 2025 2 27) = Ok l ∧
    calculate_current_phase cycle_summaries (ymd 2025 2 27) = inr r ∧
    cp_start_date r = l_cycle_start l ∧
    cp_estimated_cycle_length r = l_current_cycle_length l ∧
    cp_cycle_day r = l_cycle_day_within_phase l ∧
    cp_predicted_phase r = l_predicted_phase l.
Proof.
  intros hr_dates cycle_summaries.
  destruct (prepare hr_dates (Some cycle_summaries) 28) as [diag|ctx] eqn:Hprep;
    [by vm_compute in Hprep|].
  assert (normalized_history cycle_summaries = [ymd 2025 1 1; ymd 2025 1 29])
    as Hhist by by vm_compute.
  destruct (latest_cycle_agreement hr_dates cycle_summaries ctx
              (ymd 2025 2 27) (ymd 2025 1 29)) as (l & r & H).
  - exact Hprep.
  - apply list_elem_of_further, list_elem_of_further, list_elem_of_here.
  - by rewrite Hhist.
  - by vm_compute.
  - rewrite Hhist. intros sk Hsk Hlt.
    apply elem_of_cons in Hsk as [->|Hsk]; [by vm_compute|].
    apply elem_of_cons in Hsk as [->|Hsk]; [lia|].
    by apply elem_of_nil in Hsk.
  - by exists ctx, l, r.
Defined.

Lemma fold_day_small cycle_day cycle_length :
  1 ≤ cycle_day ≤ cycle_length → fold_day cycle_day cycle_length = cycle_day.
Proof.
  intros Hrange. unfold fold_day.
  destruct (decide (cycle_day = cycle_length)) as [->|Hne].
  - rewrite Z.mod_same by lia. done.
  - rewrite Z.mod_small by lia.
    destruct (Z.eqb_spec cycle_day 0); [lia|done].
Qed.

Lemma map_date_projected_day
    hr_dates menstrual_data default_cycle_length ctx first date l :
  0 < default_cycle_length →
  prepare hr_dates menstrual_data default_cycle_length = inr ctx →
  StronglySorted Z.le hr_dates →
  date ∈ hr_dates →
  head (ctx_cycle_starts ctx) = Some first →
  date < first →
  map_date ctx hr_dates date = Ok l →
  let estimated := ctx_estimated_cycle_length ctx in
  l_cycle_start l = first - ((first - date) / estimated + 1) * estimated ∧
  l_cycle_day_within_phase l = estimated - (first - date) mod estimated + 1 ∧
  2 ≤ l_cycle_day_within_phase l ≤ estimated + 1.
Proof.
  intros Hdefault Hprep Hdates Hin Hfirst Hlt Hl estimated.
  pose proof (prepared_estimate_pos _ _ _ _ Hdefault Hprep) as Hest.
  pose proof (prepared_sorted _ _ _ _ Hprep) as Hsorted.
  pose proof (locate_cycle_projected _ _ _ _ Hdefault Hprep first date Hfirst Hlt)
    as Hloc.
  fold estimated in Hest, Hloc.
  set (starts := ctx_cycle_starts ctx) in *.
  set (csi := cycle_start_indices_of starts hr_dates).
  pose proof (Z.div_mod (first - date) estimated ltac:(lia)) as Hdm.
  pose proof (Z.mod_pos_bound (first - date) estimated Hest) as Hmod.
  set (q := (first - date) / estimated) in *.
  apply map_date_Ok in Hl as (cycle_start & idx & L & Hloc' & Hlen & HL & ->).
  simpl. rewrite Hloc in Hloc'. unfold mbind, result_bind in Hloc'.
  destruct (minus_days first ((q + 1) * estimated)) as [r|] eqn:Hr; [|done].
  apply minus_days_Ok in Hr as [-> _]. injection Hloc' as <- <-.
  set (cycle_start := first - (q + 1) * estimated) in *.
  assert (∀ k i', csi !! k = Some i' →
            ∃ d', hr_dates !! i' = Some d' ∧ first ≤ d') as Hany.
  { intros k i' (sk & d' & Hsk & _ & Hd' & Hle)%indices_lookup_Some; [|done].
    exists d'. split; [done|].
    assert (first ≤ sk); [|lia].
    eapply (StronglySorted_lookup_le starts 0 k); [done|lia| |done].
    by rewrite <- head_lookup. }
  assert (list_find (λ i, i = 0%nat) csi = None) as Hfind.
  { apply list_find_None, Forall_lookup. intros k i' Hk ->.
    destruct (Hany _ _ Hk) as (d' & Hd' & Hle).
    apply list_elem_of_lookup in Hin as [j Hj].
    assert (d' ≤ date); [|lia].
    eapply (StronglySorted_lookup_le hr_dates 0 j); [done|lia|done..]. }
  destruct (last csi) as [i'|] eqn:Hlast; last first.
  { apply last_None in Hlast.
    by destruct (prepared_indices_nonempty _ _ _ _ Hprep). }
  pose proof Hlast as Hlast'. rewrite last_lookup in Hlast'.
  destruct (Hany _ _ Hlast') as (d' & Hd' & Hle).
  rewrite (prepared_indices _ _ _ _ Hprep) in Hlen. fold starts csi in Hlen.
  rewrite current_cycle_length_of_unfold, Hfind, Hlast, Hd' in Hlen.
  injection Hlen as <-.
  assert (1 ≤ date - cycle_start + 1 ≤ d' - cycle_start) as Hrange
    by (unfold cycle_start; nia).
  split; [done|]. rewrite (fold_day_small _ _ Hrange).
  unfold cycle_start. split; nia.
Qed.

(** X13. With target dates in ascending order and a positive default
    length, every prediction emitted for a date before the first recorded
    start reports the synthetic cycle start and the unfolded day
    [estimated − ((first − date) mod estimated) + 1]: between 2 and
    [estimated + 1], so never day 1, and one more than the estimated
    length when the date is a whole number of estimated cycles before the
    first start. *)
Theorem projected_cycle_day
    user hr_dates cycle_summaries default_cycle_length printed predictions
    first p :
  0 < default_cycle_length →
  StronglySorted Z.le hr_dates →
  predict_menstrual_phases user hr_dates (Some cycle_summaries)
    default_cycle_length = Returned printed predictions →
  p ∈ predictions →
  head (normalized_history cycle_summaries) = Some first →
  date p < first →
  let estimated :=
    estimate_cycle_length (normalized_history cycle_summaries)
      default_cycle_length in
  start_date p = first - ((first - date p) / estimated + 1) * estimated ∧
  cycle_day p = estimated - (first - date p) mod estimated + 1 ∧
  2 ≤ cycle_day p ≤ estimated + 1.
Proof.
  intros Hdefault Hdates Hrun Hp Hfirst Hlt.
  unfold predict_menstrual_phases in Hrun.
  destruct (prepare hr_dates (Some cycle_summaries) default_cycle_length)
    as [diag|ctx] eqn:Hprep.
  { simplify_eq. by apply elem_of_nil in Hp. }
  destruct (mapM (predict_date user ctx hr_dates) hr_dates) as [ps|] eqn:Hmap;
    [|done].
  simplify_eq. apply mapM_Ok_Forall2 in Hmap.
  apply list_elem_of_lookup in Hp as [n Hn].
  destruct (Forall2_lookup_r _ _ _ _ _ Hmap Hn) as (d & Hd & Hpd).
  apply predict_date_Ok in Hpd as (l & Hl & ->). simpl in *.
  destruct (prepare_inr _ _ _ _ Hprep) as (cs' & [= <-] & _ & Hstarts & Hest & _).
  rewrite Hstarts in Hest. rewrite <- Hest.
  eapply map_date_projected_day; [done|done|done| |by rewrite Hstarts|done|done].
  by eapply list_elem_of_lookup_2.
Qed.

Lemma projected_cycle_day_witness :
  let hr_dates := [ymd 2024 2 2; ymd 2024 2 10; ymd 2024 3 1] in
  let cycle_summaries := [plain_summary (ymd 2024 3 1) 5] in
  let p := {| user_id := "u"; date := ymd 2024 2 2; start_date := ymd 2024 1 5;
              predicted_phase := Follicular; cycle_day := 29 |} in
  ∃ predictions,
    predict_menstrual_phases "u" hr_dates (Some cycle_summaries) 28
      = Returned None predictions ∧
    p ∈ predictions ∧
    start_date p = ymd 2024 3 1 - ((ymd 2024 3 1 - date p) / 28 + 1) * 28 ∧
    cycle_day p = 28 - (ymd 2024 3 1 - date p) mod 28 + 1 ∧
    2 ≤ cycle_day p ≤ 28 + 1.
Proof.
  intros hr_dates cycle_summaries p.
  set (predictions :=
         [ p;
           {| user_id := "u"; date := ymd 2024 2 10; start_date := ymd 2024 2 2;
              predicted_phase := Follicular; cycle_day := 9 |};
           {| user_id := "u"; date := ymd 2024 3 1; start_date := ymd 2024 3 1;
              predicted_phase := Menstrual; cycle_day := 1 |} ]).
  assert (predict_menstrual_phases "u" hr_dates (Some cycle_summaries) 28
          = Returned None predictions) as Hrun by (vm_compute; reflexivity).
  assert (p ∈ predictions) as Hin by apply list_elem_of_here.
  assert (estimate_cycle_length (normalized_history cycle_summaries) 28 = 28)
    as Hest by by vm_compute.
  exists predictions. split; [exact Hrun|]. split; [exact Hin|].
  rewrite <- Hest.
  apply (projected_cycle_day "u" hr_dates cycle_summaries 28 None predictions
           (ymd 2024 3 1) p); [lia| |exact Hrun|exact Hin|by vm_compute|by vm_compute].
  repeat (constructor; try by vm_compute).
Defined.

(** * The estimate for typical cycles *)

(** X14. Without a fertile-window hint, for a cycle of 25 to 38 days
    whose period is at least 5 days shorter than half the cycle, no clamp
    takes effect: the ovulatory range is the 7 days centred on day
    [floor(cycle_length / 2)], the follicular range fills the days
    between the period and it, and the luteal range is the 10 to 16 days
    that remain. *)
Theorem typical_cycle_ranges menstrual_duration cycle_length :
  25 ≤ cycle_length ≤ 38 →
  menstrual_duration + 5 ≤ cycle_length / 2 →
  let r := phase_ranges menstrual_duration cycle_length None in
  let midpoint := cycle_length / 2 in
  menstrual_end r = menstrual_duration ∧
  follicular_end r = midpoint - 4 ∧
  ovulatory_start r = midpoint - 3 ∧
  ovulatory_end r = midpoint + 3 ∧
  luteal_end r = cycle_length ∧
  luteal_duration r = cycle_length - ovulatory_end r ∧
  10 ≤ luteal_duration r ≤ 16 ∧
  (0 < menstrual_duration → partition_invariant r cycle_length).
Proof.
  intros Hcl Hmd. unfold phase_ranges, ovulatory_window, partition_invariant.
  rewrite Z.quot_div_nonneg by lia.
  replace (cycle_length * 14 / 28) with (cycle_length / 2); last first.
  { replace (cycle_length * 14) with (cycle_length * 14 + 0) by lia.
    replace 28 with (2 * 14) at 1 by lia.
    rewrite <- (Z.div_div _ 14 2) by lia.
    replace (cycle_length * 14 + 0) with (cycle_length * 14) by lia.
    by rewrite Z.div_mul by lia. }
  pose proof (Z.div_mod cycle_length 2 ltac:(lia)) as Hdm.
  pose proof (Z.mod_pos_bound cycle_length 2 ltac:(lia)) as Hmod.
  generalize dependent (cycle_length / 2). intros mid Hmd Hdm.
  destruct (Z.ltb_spec cycle_length (Z.max (menstrual_duration + 1) (mid - 3) + 7 - 1));
    [lia|].
  match goal with
  | |- context [if ?a <? 1 then _ else _] => destruct (Z.ltb_spec a 1)
  end; simpl; lia.
Qed.

Lemma typical_cycle_ranges_witness :
  let r := phase_ranges 6 31 None in
  follicular_end r = 11 ∧ ovulatory_start r = 12 ∧ ovulatory_end r = 18 ∧
  luteal_duration r = 13 ∧ partition_invariant r 31.
Proof.
  intros r.
  destruct (typical_cycle_ranges 6 31) as (_ & Hfe & Hos & Hoe & _ & Hld & _ & Hinv).
  - lia.
  - by vm_compute.
  - fold r in Hfe, Hos, Hoe, Hld, Hinv.
    split; [exact Hfe|]. split; [exact Hos|]. split; [exact Hoe|].
    split; [by rewrite Hld, Hoe|]. apply Hinv. lia.
Defined.

(** * The governing cycle start *)

(** X15. For a target date on or after the first recorded start, the
    cycle start chosen by the loop is the latest start of the normalised
    history on or before the date, and every prediction emitted for the
    date reports it. *)
Theorem governing_start_is_latest
    hr_dates menstrual_data default_cycle_length ctx first date :
  prepare hr_dates menstrual_data default_cycle_length = inr ctx →
  date ∈ hr_dates →
  head (ctx_cycle_starts ctx) = Some first →
  first ≤ date →
  ∃ s i,
    locate_cycle ctx date = Ok (s, i) ∧
    first_index_ge hr_dates s = Some i ∧
    s ∈ ctx_cycle_starts ctx ∧
    s ≤ date ∧
    (∀ s', s' ∈ ctx_cycle_starts ctx → s' ≤ date → s' ≤ s) ∧
    (∀ l, map_date ctx hr_dates date = Ok l →
          l_cycle_start l = s ∧ 1 ≤ l_cycle_day l).
Proof.
  intros Hprep Hin Hfirst Hle.
  pose proof (prepare_sorted _ _ _ _ Hprep) as [Hspaced Hsorted].
  set (starts := ctx_cycle_starts ctx) in *.
  destruct (list_find (λ s, s ≤ date) (reverse starts)) as [[j s]|] eqn:Hfind;
    last first.
  { apply list_find_None in Hfind. rewrite Forall_forall in Hfind.
    destruct (Hfind first); [|done].
    apply elem_of_reverse_2. destruct starts; [done|].
    simpl in Hfirst. simplify_eq. apply list_elem_of_here. }
  pose proof Hfind as (Hs & Hsd & Hmax)%list_find_reverse_latest; [|done].
  apply list_find_Some in Hfind as (Hj & _ & _).
  apply reverse_lookup_Some in Hj as [Hp Hjl].
  set (p := (length starts - S j)%nat) in *.
  destruct (locate_cycle_at _ _ _ _ Hprep p s date) as (i & Hi & Hloc);
    [done|done| |done|].
  { intros s' Hs'. destruct (decide (date < s')); [done|].
    assert (s' ≤ s) by (apply Hmax; [by eapply list_elem_of_lookup_2|lia]).
    assert (s < s'); [|lia].
    eapply (StronglySorted_lookup_lt starts p (S p));
      [by apply spaced_increasing|lia|done..]. }
  exists s, i. split_and!; try done.
  intros l (cs0 & idx & L & Hloc' & _ & _ & ->)%map_date_Ok. simpl.
  rewrite Hloc in Hloc'. simplify_eq. split; [done|lia].
Qed.

Lemma governing_start_is_latest_witness :
  let hr_dates := [ymd 2025 1 1; ymd 2025 1 31; ymd 2025 2 27] in
  let menstrual_data :=
    Some [plain_summary (ymd 2025 1 1) 5; plain_summary (ymd 2025 1 29) 5;
          plain_summary (ymd 2025 2 26) 5] in
  ∃ ctx s i,
    prepare hr_dates menstrual_data 28 = inr ctx ∧
    locate_cycle ctx (ymd 2025 1 31) = Ok (s, i) ∧
    s ∈ ctx_cycle_starts ctx ∧ s ≤ ymd 2025 1 31 ∧
    (∀ s', s' ∈ ctx_cycle_starts ctx → s' ≤ ymd 2025 1 31 → s' ≤ s).
Proof.
  intros hr_dates menstrual_data.
  destruct (prepare hr_dates menstrual_data 28) as [diag|ctx] eqn:Hprep;
    [by vm_compute in Hprep|].
  assert (ctx_cycle_starts ctx = [ymd 2025 1 1; ymd 2025 1 29; ymd 2025 2 26])
    as Hstarts.
  { vm_compute in Hprep. by simplify_eq. }
  destruct (governing_start_is_latest hr_dates menstrual_data 28 ctx
              (ymd 2025 1 1) (ymd 2025 1 31))
    as (s & i & Hloc & _ & Hs & Hle & Hmax & _).
  - exact Hprep.
  - apply list_elem_of_further, list_elem_of_here.
  - by rewrite Hstarts.
  - by vm_compute.
  - by exists ctx, s, i.
Defined.
